(** * terraform_execution_summary: the plan/apply diff renderer

    A shallow embedding of [render_string], [render_bool], [render_none],
    [render_dict], [render_list], [compare_values] and [parse_changes] of
    [src/image/src/terraform_execution_summary/__main__.py], and the
    properties of the rendered diff.

    Conventions of the embedding.
    - A Python value decoded from JSON is a [value]; numbers are the
      integers ([Z]); a [dict] keeps insertion order as an association
      list with string keys.
    - A [str] is a [string] of 8-bit characters; [len] is [String.length],
      [lower] maps the ASCII capitals, and strings are ordered by character
      code.
    - Python exceptions that the source lets escape are results [Raise e];
      exceptions the source catches are written out at the catch site.
    - [json.loads] is a parameter of the comparator: every general theorem
      holds whatever it answers.  [Json.loads] is a reference decoder used
      to evaluate concrete scenarios.
    - The interpreter bounds the depth of nested calls; the comparator takes
      the number of frames still available and raises [RecursionError] when
      none is left, as the interpreter does. *)

From Stdlib Require Import List String Ascii ZArith Lia Bool Arith DecimalString
  Sorted Permutation.
Import ListNotations.

#[local] Open Scope list_scope.
#[local] Open Scope string_scope.

(** ** Python values *)

#[local] Unset Elimination Schemes.
Inductive value : Type :=
| VNone
| VBool (b : bool)
| VInt (z : Z)
| VStr (s : string)
| VList (items : list value)
| VDict (items : list (string * value)).
#[local] Set Elimination Schemes.

(** A JSON object: keys in insertion order. *)
Definition dict : Type := list (string * value).

(** An attribute of the comparator: a mapping key or a list index. *)
Inductive key : Type :=
| KStr (s : string)
| KInt (n : nat).

Inductive exn : Type :=
| TypeError
| RecursionError
| SystemExit (code : Z).

Inductive result (A : Type) : Type :=
| Ok (a : A)
| Raise (e : exn).
Arguments Ok {A} a.
Arguments Raise {A} e.

Definition bind {A B : Type} (m : result A) (f : A -> result B) : result B :=
  match m with
  | Ok a => f a
  | Raise e => Raise e
  end.

Declare Scope py_scope.
Delimit Scope py_scope with py.
Notation "x <- m ;; k" := (bind m (fun x => k))
  (at level 61, m at next level, right associativity) : py_scope.
#[local] Open Scope py_scope.

(** ** Text helpers *)

Definition nl : string := String "010"%char EmptyString.
Definition dq : string := String "034"%char EmptyString.

(** [str(n)] for a list index and [str(z)] for an integer. *)
Definition str_nat (n : nat) : string := NilZero.string_of_uint (Nat.to_uint n).
Definition str_int (z : Z) : string := NilZero.string_of_int (Z.to_int z).

(** ["   " * n] *)
Fixpoint indent (n : nat) : string :=
  match n with
  | O => ""
  | S n' => "   " ++ indent n'
  end.

Definition lower_char (c : ascii) : ascii :=
  let n := nat_of_ascii c in
  if ((65 <=? n) && (n <=? 90))%nat then ascii_of_nat (n + 32) else c.

(** [s.lower()] *)
Fixpoint lower (s : string) : string :=
  match s with
  | EmptyString => EmptyString
  | String c s' => String (lower_char c) (lower s')
  end.

(** [sub in s] on strings *)
Fixpoint contains (sub s : string) : bool :=
  prefix sub s ||
  match s with
  | EmptyString => false
  | String _ s' => contains sub s'
  end.

Fixpoint existsb_char (p : ascii -> bool) (s : string) : bool :=
  match s with
  | EmptyString => false
  | String c s' => p c || existsb_char p s'
  end.

(** [s[n]]: the one-character string at index [n], [None] for IndexError. *)
Definition char_at (s : string) (n : nat) : option string :=
  match String.get n s with
  | Some c => Some (String c EmptyString)
  | None => None
  end.

(** ** Python equality, truth and membership *)

Definition Z_of_bool (b : bool) : Z := if b then 1%Z else 0%Z.

Fixpoint lookup (k : string) (d : dict) : option value :=
  match d with
  | [] => None
  | (k', v) :: d' => if String.eqb k k' then Some v else lookup k d'
  end.

(** [a == b].  A bool is the integer 0 or 1; lists compare pointwise; dicts
    compare as mappings, whatever the order of their keys. *)
Fixpoint py_eq (a b : value) {struct a} : bool :=
  match a, b with
  | VNone, VNone => true
  | VBool x, VBool y => Bool.eqb x y
  | VBool x, VInt y => Z.eqb (Z_of_bool x) y
  | VInt x, VBool y => Z.eqb x (Z_of_bool y)
  | VInt x, VInt y => Z.eqb x y
  | VStr x, VStr y => String.eqb x y
  | VList xs, VList ys =>
      (fix pointwise (xs : list value) (ys : list value) {struct xs} : bool :=
         match xs, ys with
         | [], [] => true
         | x :: xs', y :: ys' => py_eq x y && pointwise xs' ys'
         | _, _ => false
         end) xs ys
  | VDict xs, VDict ys =>
      Nat.eqb (List.length xs) (List.length ys) &&
      forallb (fun kv => match lookup (fst kv) ys with
                         | Some y => py_eq (snd kv) y
                         | None => false
                         end) xs
  | _, _ => false
  end.

(** [v is None] and [v == None] agree on JSON values. *)
Definition is_none (v : value) : bool :=
  match v with
  | VNone => true
  | _ => false
  end.

(** [bool(v)] *)
Definition truthy (v : value) : bool :=
  match v with
  | VNone => false
  | VBool b => b
  | VInt z => negb (Z.eqb z 0)
  | VStr s => negb (String.eqb s "")
  | VList l => negb (Nat.eqb (List.length l) 0)
  | VDict d => negb (Nat.eqb (List.length d) 0)
  end.

Definition value_of_key (k : key) : value :=
  match k with
  | KStr s => VStr s
  | KInt n => VInt (Z.of_nat n)
  end.

(** [str(attribute)] *)
Definition str_key (k : key) : string :=
  match k with
  | KStr s => s
  | KInt n => str_nat n
  end.

(** [attribute in container]: membership in a list, key of a dict, substring
    of a str; TypeError on anything else. *)
Definition py_in (k : key) (container : value) : result bool :=
  match container with
  | VList l => Ok (existsb (py_eq (value_of_key k)) l)
  | VDict d =>
      match k with
      | KStr s => Ok (match lookup s d with Some _ => true | None => false end)
      | KInt _ => Ok false
      end
  | VStr s =>
      match k with
      | KStr sub => Ok (contains sub s)
      | KInt _ => Raise TypeError
      end
  | _ => Raise TypeError
  end.

(** [container[attribute]] under [except (TypeError, KeyError, IndexError)]:
    [None] stands for any of the three. *)
Definition subscript (container : value) (k : key) : option value :=
  match container, k with
  | VDict d, KStr s => lookup s d
  | VList l, KInt n => nth_error l n
  | VStr s, KInt n => option_map VStr (char_at s n)
  | _, _ => None
  end.

(** ** Module constants *)

(** [SPECIAL_CHARACTERS_REGEX = re.compile(r"[@!#$%^&*()<>?/\|}{~:]")]:
    inside the class the backslash escapes the bar and is not a member. *)
Definition special_characters : list ascii :=
  ["@"; "!"; "#"; "$"; "%"; "^"; "&"; "*"; "("; ")"; "<"; ">"; "?"; "/";
   "|"; "}"; "{"; "~"; ":"]%char.

Definition is_special (c : ascii) : bool :=
  existsb (Ascii.eqb c) special_characters.

(** [SPECIAL_CHARACTERS_REGEX.search(s) is not None] *)
Definition SPECIAL_CHARACTERS_REGEX_search (s : string) : bool :=
  existsb_char is_special s.

Definition SENSITIVE_KEYS : list string :=
  ["auth"; "pass"; "token"; "jwt"; "secret"].

Definition symbol_add : string := "+".
Definition symbol_update : string := "~".
Definition symbol_delete : string := "-".
Definition message_add : string := "This resource will be created as defined.".
Definition message_update : string := "This resource will be updated in-place.".
Definition message_delete : string := "This resource will be destroyed.".

(** ** The value renderer *)

Definition render_string (data : string) : string :=
  if (1000 <? String.length data)%nat then "(Hidden Large Value)"
  else dq ++ data ++ dq.

Definition render_bool (data : bool) : string :=
  if data then "true" else "false".

Definition render_none : string := "null".

(** [f'"{key}"'] when the key holds a special character, the key otherwise. *)
Definition quote_key (k : string) : string :=
  if SPECIAL_CHARACTERS_REGEX_search k then dq ++ k ++ dq else k.

(** [render_dict] and [render_list] call each other on the members of their
    argument; both loops dispatch on the member's type in the same way.
    [render_value] is that dispatch, with the two bodies in its container
    cases, so that the recursion follows the structure of the value. *)
Fixpoint render_value (v : value) (start_with_indention : bool)
    (indention_level : nat) {struct v} : string :=
  let tabs := indent indention_level in
  let values_tab := indent (indention_level + 1) in
  match v with
  | VStr s => render_string s
  | VBool b => render_bool b
  | VNone => render_none
  | VInt z => str_int z
  | VDict data =>
      match data with
      | [] => (if start_with_indention then tabs else "") ++ "{}"
      | _ =>
          (if start_with_indention then tabs else "") ++ "{" ++ nl
          ++ String.concat ""
               (map (fun kv =>
                       values_tab ++ quote_key (fst kv) ++ " = "
                       ++ render_value (snd kv) false (indention_level + 1) ++ nl)
                    data)
          ++ tabs ++ "}"
      end
  | VList data =>
      match data with
      | [] => (if start_with_indention then tabs else "") ++ "[]"
      | _ =>
          (if start_with_indention then tabs else "") ++ "[" ++ nl
          ++ String.concat ""
               (map (fun x =>
                       values_tab
                       ++ render_value x false (indention_level + 1) ++ nl)
                    data)
          ++ tabs ++ "]"
      end
  end.

Definition render_dict (data : dict) (start_with_indention : bool)
    (indention_level : nat) : string :=
  render_value (VDict data) start_with_indention indention_level.

Definition render_list (data : list value) (start_with_indention : bool)
    (indention_level : nat) : string :=
  render_value (VList data) start_with_indention indention_level.

(** ** The attribute key set *)

(** [before.keys()], [[*range(0, len(before), 1)]] or [[]]. *)
Definition keys_of (v : value) : list key :=
  match v with
  | VDict d => map (fun kv => KStr (fst kv)) d
  | VList l => map KInt (seq 0 (List.length l))
  | _ => []
  end.

Definition key_eqb (a b : key) : bool :=
  match a, b with
  | KStr x, KStr y => String.eqb x y
  | KInt x, KInt y => Nat.eqb x y
  | _, _ => false
  end.

(** [a <= b] between two keys of the same type. *)
Definition key_leb (a b : key) : bool :=
  match a, b with
  | KStr x, KStr y => String.leb x y
  | KInt x, KInt y => Nat.leb x y
  | KInt _, KStr _ => true
  | KStr _, KInt _ => false
  end.

Definition is_int_key (k : key) : bool :=
  match k with
  | KInt _ => true
  | KStr _ => false
  end.

Definition is_str_key (k : key) : bool := negb (is_int_key k).

(** Insertion into a sorted list without duplicates. *)
Fixpoint insert_key (k : key) (ks : list key) : list key :=
  match ks with
  | [] => [k]
  | k' :: ks' =>
      if key_eqb k k' then ks
      else if key_leb k k' then k :: ks
      else k' :: insert_key k ks'
  end.

(** [sorted(list(set(ks)))].  Ordering an [int] against a [str] raises
    TypeError, and no sort of two or more keys can finish without ordering
    two keys of different types when both types are present. *)
Definition sorted_set (ks : list key) : result (list key) :=
  if existsb is_int_key ks && existsb is_str_key ks then Raise TypeError
  else Ok (fold_right insert_key [] ks).

(** ** The structural comparator *)

Definition annotation (forces_replacement : bool) : string :=
  if forces_replacement then " -> (Forces Replacement)" ++ nl else nl.

(** The membership and the value test on a sensitivity or unknown map:
    [attribute in m] and then [m[attribute] is True or m[attribute] == [True]]. *)
Definition marked (m : dict) (attribute : key) : bool :=
  match attribute with
  | KStr s =>
      match lookup s m with
      | Some v =>
          match v with
          | VBool true => true
          | _ => py_eq v (VList [VBool true])
          end
      | None => false
      end
  | KInt _ => false
  end.

(** [any(check in str(attribute).lower() for check in SENSITIVE_KEYS)] *)
Definition sensitive_name (attribute : key) : bool :=
  existsb (fun check => contains check (lower (str_key attribute))) SENSITIVE_KEYS.

Definition before_sensitive_bool (before_sensitive : dict) (attribute : key) : bool :=
  marked before_sensitive attribute || sensitive_name attribute.

Definition after_sensitive_bool (after_sensitive : dict) (attribute : key) : bool :=
  marked after_sensitive attribute || sensitive_name attribute.

Definition after_unknown_bool (after_unknown : dict) (attribute : key) : bool :=
  marked after_unknown attribute.

(** [replace_paths and indention_level == 1], then [attribute in replace_paths]. *)
Definition forces_replacement (replace_paths : value) (indention_level : nat)
    (attribute : key) : result bool :=
  if truthy replace_paths && Nat.eqb indention_level 1
  then py_in attribute replace_paths
  else Ok false.

(** [before[attribute]], [None] when the subscript fails. *)
Definition before_value_of (before : value) (attribute : key) : value :=
  match subscript before attribute with
  | Some v => v
  | None => VNone
  end.

(** [after[attribute]], then [after_unknown[attribute]], then [None]. *)
Definition after_value_of (after : value) (after_unknown : dict)
    (attribute : key) : value :=
  match subscript after attribute with
  | Some v => v
  | None =>
      match subscript (VDict after_unknown) attribute with
      | Some v => v
      | None => VNone
      end
  end.

Definition before_value_rendered (sensitive : bool) (before_value : value)
    (indention_level : nat) : string :=
  if sensitive then "(Sensitive Data)"
  else render_value before_value false (indention_level + 1).

Definition after_value_rendered (sensitive unknown : bool) (after_value : value)
    (indention_level : nat) : string :=
  if sensitive then "(Sensitive Data)"
  else if unknown then "(Known After Apply)"
  else render_value after_value false (indention_level + 1).

Definition attributed_rendered (attribute : key) : string :=
  quote_key (str_key attribute).

Definition symbol (before_value after_value : value) : string :=
  if py_eq before_value VNone && negb (py_eq after_value VNone) then symbol_add
  else if negb (py_eq before_value VNone) && py_eq after_value VNone then symbol_delete
  else symbol_update.

(** The line of the leaf case, from the two rendered sides. *)
Definition leaf_line (indention_level : nat) (attribute : key)
    (before_value after_value : value) (before_rendered after_rendered : string)
    (forces : bool) : string :=
  let tabs := indent indention_level in
  let symbol := symbol before_value after_value in
  if is_none before_value && negb (is_none after_value) then
    if is_int_key attribute
    then tabs ++ symbol ++ " " ++ after_rendered ++ annotation forces
    else tabs ++ symbol ++ " " ++ attributed_rendered attribute ++ " = "
         ++ after_rendered ++ annotation forces
  else tabs ++ symbol ++ " " ++ attributed_rendered attribute ++ " = "
       ++ before_rendered ++ " -> " ++ after_rendered ++ annotation forces.

Definition is_dict (v : value) : bool :=
  match v with
  | VDict _ => true
  | _ => false
  end.

Definition is_list (v : value) : bool :=
  match v with
  | VList _ => true
  | _ => false
  end.

(** The loop of [compare_values]: the pieces of the attributes in order; an
    exception at one attribute ends the loop. *)
Fixpoint for_each (body : key -> result string) (attributes : list key)
    : result string :=
  match attributes with
  | [] => Ok ""
  | attribute :: rest =>
      piece <- body attribute ;;
      others <- for_each body rest ;;
      Ok (piece ++ others)
  end.

Section Comparator.

(** [json.loads] on a [str]: [None] is JSONDecodeError. *)
Variable json_loads : string -> option value.

(** [try: v = json.loads(v)  except (TypeError, JSONDecodeError): pass] *)
Definition try_json_loads (v : value) : value :=
  match v with
  | VStr s =>
      match json_loads s with
      | Some parsed => parsed
      | None => v
      end
  | _ => v
  end.

(** What one iteration of the loop adds to [result]; [recurse] is the
    nested call of [compare_values]. *)
Definition compare_attribute
    (recurse : value -> value -> dict -> dict -> dict -> value -> nat -> result string)
    (before after : value) (before_sensitive after_sensitive after_unknown : dict)
    (replace_paths : value) (indention_level : nat) (attribute : key)
    : result string :=
  let before_value := before_value_of before attribute in
  let after_value := after_value_of after after_unknown attribute in
  let tabs := indent indention_level in
  if py_eq before_value after_value then Ok ""
  else
    let before_value := try_json_loads before_value in
    let after_value := try_json_loads after_value in
    let before_sensitive_bool := before_sensitive_bool before_sensitive attribute in
    let after_sensitive_bool := after_sensitive_bool after_sensitive attribute in
    let after_unknown_bool := after_unknown_bool after_unknown attribute in
    forces <- forces_replacement replace_paths indention_level attribute ;;
    if is_dict before_value
       && (truthy before_value && negb (is_none after_value))
       && negb before_sensitive_bool && negb after_sensitive_bool
       && negb after_unknown_bool
    then
      let header :=
        match attribute with
        | KStr s => tabs ++ s ++ " = {" ++ annotation forces
        | KInt _ => tabs ++ "{" ++ annotation forces
        end in
      nested <- recurse before_value after_value before_sensitive
                  after_sensitive after_unknown VNone (indention_level + 1) ;;
      Ok (header ++ nested ++ tabs ++ "}" ++ nl)
    else if is_list before_value
       && (truthy before_value && negb (is_none after_value))
       && negb before_sensitive_bool && negb after_sensitive_bool
       && negb after_unknown_bool
    then
      let header := tabs ++ str_key attribute ++ " = [" ++ annotation forces in
      nested <- recurse before_value after_value before_sensitive
                  after_sensitive after_unknown VNone (indention_level + 1) ;;
      Ok (header ++ nested ++ tabs ++ "]" ++ nl)
    else
      Ok (leaf_line indention_level attribute before_value after_value
            (before_value_rendered before_sensitive_bool before_value indention_level)
            (after_value_rendered after_sensitive_bool after_unknown_bool
               after_value indention_level)
            forces).

(** [compare_values]; [frames] is the number of nested calls the
    interpreter still allows, [replace_paths] is [VNone] when the caller
    leaves the default. *)
Fixpoint compare_values (frames : nat) (before after : value)
    (before_sensitive after_sensitive after_unknown : dict)
    (replace_paths : value) (indention_level : nat) {struct frames}
    : result string :=
  match frames with
  | O => Raise RecursionError
  | S frames' =>
      attributes <- sorted_set (keys_of before ++ keys_of after)%list ;;
      for_each
        (compare_attribute (compare_values frames') before after
           before_sensitive after_sensitive after_unknown replace_paths
           indention_level)
        attributes
  end.

End Comparator.

(** ** A reference decoder for [json.loads]

    The decoder follows [json.decoder] on documents whose numbers are
    integers and whose strings hold only the two-character escapes; a
    fraction, an exponent, [NaN], [Infinity] or a [\u] escape is outside the
    value model and is answered [None].  It serves the concrete scenarios;
    the general theorems do not depend on it. *)

Module Json.

Definition is_ws (c : ascii) : bool :=
  existsb (Ascii.eqb c) [" "; "009"; "010"; "013"]%char.

Fixpoint skip_ws (s : string) : string :=
  match s with
  | String c s' => if is_ws c then skip_ws s' else s
  | EmptyString => s
  end.

Definition is_digit (c : ascii) : bool :=
  let n := nat_of_ascii c in ((48 <=? n) && (n <=? 57))%nat.

Definition digit_value (c : ascii) : Z := Z.of_nat (nat_of_ascii c - 48).

(** The digits at the head of [s], read in base ten onto [acc]. *)
Fixpoint scan_digits (acc : Z) (s : string) : Z * string :=
  match s with
  | String c s' =>
      if is_digit c then scan_digits (10 * acc + digit_value c)%Z s'
      else (acc, s)
  | EmptyString => (acc, s)
  end.

Definition starts_fraction (s : string) : bool :=
  match s with
  | String c _ => existsb (Ascii.eqb c) ["."; "e"; "E"]%char
  | EmptyString => false
  end.

(** A zero, or a digit from 1 to 9 and any digits after it; no fraction
    and no exponent may follow. *)
Definition scan_natural (s : string) : option (Z * string) :=
  match s with
  | String c s' =>
      if Ascii.eqb c "0" then
        if starts_fraction s' then None else Some (0%Z, s')
      else if is_digit c then
        let '(n, rest) := scan_digits 0 s in
        if starts_fraction rest then None else Some (n, rest)
      else None
  | EmptyString => None
  end.

Definition unescape (c : ascii) : option ascii :=
  if Ascii.eqb c "034" then Some "034"%char
  else if Ascii.eqb c "\" then Some "\"%char
  else if Ascii.eqb c "/" then Some "/"%char
  else if Ascii.eqb c "b" then Some "008"%char
  else if Ascii.eqb c "f" then Some "012"%char
  else if Ascii.eqb c "n" then Some "010"%char
  else if Ascii.eqb c "r" then Some "013"%char
  else if Ascii.eqb c "t" then Some "009"%char
  else None.

(** The text after an opening quote, up to the closing quote. *)
Fixpoint scan_string (s : string) : option (string * string) :=
  match s with
  | EmptyString => None
  | String c s' =>
      if Ascii.eqb c "034" then Some (EmptyString, s')
      else if Ascii.eqb c "\" then
        match s' with
        | String e s'' =>
            match unescape e, scan_string s'' with
            | Some c', Some (body, rest) => Some (String c' body, rest)
            | _, _ => None
            end
        | EmptyString => None
        end
      else if (nat_of_ascii c <? 32)%nat then None
      else
        match scan_string s' with
        | Some (body, rest) => Some (String c body, rest)
        | None => None
        end
  end.

Fixpoint drop (n : nat) (s : string) : string :=
  match n, s with
  | S n', String _ s' => drop n' s'
  | _, _ => s
  end.

(** [dict(pairs)]: a repeated key keeps its first place and takes the last
    value. *)
Fixpoint dict_set (k : string) (v : value) (d : dict) : dict :=
  match d with
  | [] => [(k, v)]
  | (k', v') :: d' =>
      if String.eqb k k' then (k, v) :: d' else (k', v') :: dict_set k v d'
  end.

Definition dict_of_pairs (pairs : dict) : dict :=
  fold_left (fun d kv => dict_set (fst kv) (snd kv) d) pairs [].

(** [scan_once] with [JSONArray] and [JSONObject]; [scan_elements] and
    [scan_members] start at the first element or member. *)
Fixpoint scan_once (fuel : nat) (s : string) {struct fuel}
    : option (value * string) :=
  match fuel with
  | O => None
  | S fuel' =>
      match s with
      | String c s' =>
          if Ascii.eqb c "034" then
            match scan_string s' with
            | Some (body, rest) => Some (VStr body, rest)
            | None => None
            end
          else if Ascii.eqb c "{" then
            match skip_ws s' with
            | String c1 s1 =>
                if Ascii.eqb c1 "}" then Some (VDict [], s1)
                else
                  match scan_members fuel' (String c1 s1) with
                  | Some (pairs, rest) => Some (VDict (dict_of_pairs pairs), rest)
                  | None => None
                  end
            | EmptyString => None
            end
          else if Ascii.eqb c "[" then
            match skip_ws s' with
            | String c1 s1 =>
                if Ascii.eqb c1 "]" then Some (VList [], s1)
                else
                  match scan_elements fuel' (String c1 s1) with
                  | Some (items, rest) => Some (VList items, rest)
                  | None => None
                  end
            | EmptyString => None
            end
          else if prefix "null" s then Some (VNone, drop 4 s)
          else if prefix "true" s then Some (VBool true, drop 4 s)
          else if prefix "false" s then Some (VBool false, drop 5 s)
          else if Ascii.eqb c "-" then
            match scan_natural s' with
            | Some (n, rest) => Some (VInt (- n)%Z, rest)
            | None => None
            end
          else
            match scan_natural s with
            | Some (n, rest) => Some (VInt n, rest)
            | None => None
            end
      | EmptyString => None
      end
  end
with scan_elements (fuel : nat) (s : string) {struct fuel}
    : option (list value * string) :=
  match fuel with
  | O => None
  | S fuel' =>
      match scan_once fuel' s with
      | Some (v, rest) =>
          match skip_ws rest with
          | String c s1 =>
              if Ascii.eqb c "]" then Some ([v], s1)
              else if Ascii.eqb c "," then
                match scan_elements fuel' (skip_ws s1) with
                | Some (items, rest') => Some (v :: items, rest')
                | None => None
                end
              else None
          | EmptyString => None
          end
      | None => None
      end
  end
with scan_members (fuel : nat) (s : string) {struct fuel}
    : option (dict * string) :=
  match fuel with
  | O => None
  | S fuel' =>
      match s with
      | String q s0 =>
          if Ascii.eqb q "034" then
            match scan_string s0 with
            | Some (k, rest0) =>
                match skip_ws rest0 with
                | String colon s1 =>
                    if Ascii.eqb colon ":" then
                      match scan_once fuel' (skip_ws s1) with
                      | Some (v, rest) =>
                          match skip_ws rest with
                          | String c s2 =>
                              if Ascii.eqb c "}" then Some ([(k, v)], s2)
                              else if Ascii.eqb c "," then
                                match scan_members fuel' (skip_ws s2) with
                                | Some (pairs, rest') => Some ((k, v) :: pairs, rest')
                                | None => None
                                end
                              else None
                          | EmptyString => None
                          end
                      | None => None
                      end
                    else None
                | EmptyString => None
                end
            | None => None
            end
          else None
      | EmptyString => None
      end
  end.

(** [json.loads(s)]: one document between optional white space. *)
Definition loads (s : string) : option value :=
  match scan_once (3 * String.length s + 3) (skip_ws s) with
  | Some (v, rest) =>
      match skip_ws rest with
      | EmptyString => Some v
      | String _ _ => None
      end
  | None => None
  end.

End Json.

(** ** The resource-change classifier *)

(** [resource_change["change"]]; an absent optional field is [None]. *)
Record change : Type := {
  actions : list string;
  before : value;
  after : value;
  before_sensitive : option value;
  after_sensitive : option value;
  after_unknown : option value;
  replace_paths : option value
}.

Record resource_change : Type := {
  provider_name : string;
  type_ : string;
  address : string;
  name : string;
  change_ : change
}.

(** The calls of [utilities.logging] made by [parse_changes]. *)
Inductive log_event : Type :=
| LogDebug (msg : string)
| LogError (msg : string).

Definition is_space (c : ascii) : bool :=
  let n := nat_of_ascii c in
  (((9 <=? n) && (n <=? 13)) || ((28 <=? n) && (n <=? 32)))%nat.

(** [s.lstrip()] *)
Fixpoint lstrip (s : string) : string :=
  match s with
  | String c s' => if is_space c then lstrip s' else s
  | EmptyString => s
  end.

(** [RESOURCE_MESSAGE.format(a0, a1, a2, a3, a4, a5)] *)
Definition RESOURCE_MESSAGE (a0 a1 a2 a3 a4 a5 : string) : string :=
  nl ++ "# Provider: [" ++ a0 ++ "]" ++ nl
  ++ "# Resource Type: [" ++ a1 ++ "]" ++ nl
  ++ "# Resource Identifier: [" ++ a2 ++ "]" ++ nl
  ++ "# Message: " ++ a3 ++ nl
  ++ a4 ++ " " ++ a5 ++ " ".

Definition preamble : string :=
  nl ++ "Resource actions are indicated with the following symbols:" ++ nl
  ++ "    + create resource" ++ nl
  ++ "    - destroy resource" ++ nl
  ++ "    ~ update in-place" ++ nl
  ++ "    +/- create replacement and then destroy" ++ nl
  ++ nl
  ++ "Terraform will perform the following actions:" ++ nl.

(** [name in actions] *)
Definition has_action (name : string) (c : change) : bool :=
  existsb (String.eqb name) (actions c).

(** A sensitivity or unknown map of the record: the field when it is present
    and a dict, the empty dict otherwise. *)
Definition dict_field (field : option value) : dict :=
  match field with
  | Some (VDict d) => d
  | _ => []
  end.

(** The first element of [replace_paths] when the field is a non-empty list,
    the empty list otherwise. *)
Definition first_replace_path (field : option value) : value :=
  match field with
  | Some (VList (path :: _)) => path
  | _ => VList []
  end.

(** [" ".join(["resource", f'"{type}"', f'"{name}"'])] *)
Definition resource_title (rc : resource_change) : string :=
  "resource " ++ dq ++ type_ rc ++ dq ++ " " ++ dq ++ name rc ++ dq.

Definition header (rc : resource_change) (message symbol : string) : string :=
  RESOURCE_MESSAGE (provider_name rc) (type_ rc) (address rc) message symbol
    (resource_title rc) ++ "{" ++ nl.

Section Classifier.

Variable json_loads : string -> option value.
Variable frames : nat.

(** One iteration of the loop of [parse_changes]: the log events it
    writes and the text it adds to [result]. *)
Definition parse_change (rc : resource_change) : list log_event * result string :=
  let c := change_ rc in
  if negb (has_action "no-op" c) then
    let before_sensitive := dict_field (before_sensitive c) in
    let after_sensitive := dict_field (after_sensitive c) in
    let after_unknown := dict_field (after_unknown c) in
    let replace_paths := first_replace_path (replace_paths c) in
    if has_action "create" c && has_action "delete" c then
      ([], body <- compare_values json_loads frames (before c) (after c)
                     before_sensitive after_sensitive after_unknown
                     replace_paths 1 ;;
           Ok (header rc "This resource must be replaced."
                 (symbol_add ++ "/" ++ symbol_delete)
               ++ body ++ "}" ++ nl))
    else if has_action "create" c && negb (has_action "delete" c) then
      ([], body <- compare_values json_loads frames (before c) (after c)
                     before_sensitive after_sensitive after_unknown VNone 1 ;;
           Ok (header rc message_add symbol_add ++ body ++ "}" ++ nl))
    else if has_action "delete" c && negb (has_action "create" c) then
      ([], body <- compare_values json_loads frames (before c) (after c)
                     before_sensitive after_sensitive after_unknown VNone 1 ;;
           Ok (header rc message_delete symbol_delete ++ body ++ "}" ++ nl))
    else if has_action "update" c then
      ([], body <- compare_values json_loads frames (before c) (after c)
                     before_sensitive after_sensitive after_unknown VNone 1 ;;
           Ok (header rc message_update symbol_update ++ body ++ "}" ++ nl))
    else if has_action "read" c then
      ([LogDebug ("Data resource found [" ++ address rc ++ "]")], Ok "")
    else
      ([LogError ("Failed to parse plan action on resource [" ++ address rc ++ "]")],
       Raise (SystemExit 1))
  else ([], Ok "").

(** The loop over [resources["resource_changes"]], from the text and the
    log accumulated so far; an exception ends it. *)
Fixpoint parse_changes_loop (resource_changes : list resource_change)
    (text : string) (log : list log_event) {struct resource_changes}
    : list log_event * result string :=
  match resource_changes with
  | [] => (log, Ok text)
  | rc :: rest =>
      match parse_change rc with
      | (events, Ok block) =>
          parse_changes_loop rest (text ++ block) (log ++ events)%list
      | (events, Raise e) => ((log ++ events)%list, Raise e)
      end
  end.

Definition parse_changes (resource_changes : list resource_change)
    : list log_event * result string :=
  match parse_changes_loop resource_changes preamble [] with
  | (log, Ok text) => (log, Ok (lstrip (text ++ nl)))
  | (log, Raise e) => (log, Raise e)
  end.

End Classifier.

(** ** The words of the specification

    The marks the specification speaks of, stated on the maps as the
    comparator receives them; the comparator computes [marked] and
    [sensitive_name]. *)

(** The map gives the key the value [True] or the list [[True]]. *)
Definition marked_true (m : dict) (attribute : key) : Prop :=
  exists s, attribute = KStr s
    /\ (lookup s m = Some (VBool true) \/ lookup s m = Some (VList [VBool true])).

(** The lowercased key holds one of [auth], [pass], [token], [jwt], [secret]. *)
Definition named_sensitive (attribute : key) : Prop :=
  exists check, In check SENSITIVE_KEYS
    /\ contains check (lower (str_key attribute)) = true.

(** The comparator's test on an attribute: the resolved values differ. *)
Definition differs (before after : value) (unk : dict) (attribute : key) : bool :=
  negb (py_eq (before_value_of before attribute)
              (after_value_of after unk attribute)).

(** [before_value] and [after_value] after the two calls of [json.loads]. *)
Definition parsed_before (loads : string -> option value) (before : value)
    (attribute : key) : value :=
  try_json_loads loads (before_value_of before attribute).

Definition parsed_after (loads : string -> option value) (after : value)
    (unk : dict) (attribute : key) : value :=
  try_json_loads loads (after_value_of after unk attribute).

(** No action of the record is one of the six the classifier knows. *)
Definition unrecognised (c : change) : Prop :=
  has_action "no-op" c = false /\ has_action "create" c = false
  /\ has_action "delete" c = false /\ has_action "update" c = false
  /\ has_action "read" c = false.

(** The record is a read: [read] is among its actions and [no-op], [create],
    [delete] and [update] are not. *)
Definition read_only (c : change) : Prop :=
  has_action "no-op" c = false /\ has_action "create" c = false
  /\ has_action "delete" c = false /\ has_action "update" c = false
  /\ has_action "read" c = true.

(** ** Measures

    The size of a value bounds the depth of the nested calls made on it. *)

Fixpoint vsize (v : value) : nat :=
  match v with
  | VStr s => S (String.length s)
  | VList l => S (list_sum (map vsize l))
  | VDict d => S (list_sum (map (fun kv => vsize (snd kv)) d))
  | _ => 1
  end.

Definition dict_size (d : dict) : nat :=
  list_sum (map (fun kv => vsize (snd kv)) d).

(** The result is a value, or an exception that satisfies [P]. *)
Definition raises_only {A : Type} (P : exn -> Prop) (r : result A) : Prop :=
  match r with
  | Ok _ => True
  | Raise e => P e
  end.

(** A string of [n] copies of [c]. *)
Fixpoint repeat_char (c : ascii) (n : nat) : string :=
  match n with
  | O => EmptyString
  | S n' => String c (repeat_char c n')
  end.

(** A resource change of the examples. *)
Definition web (acts : list string) (b a : value) (unknown paths : option value)
    : resource_change :=
  {| provider_name := "registry.terraform.io/hashicorp/aws";
     type_ := "aws_instance";
     address := "aws_instance.web";
     name := "web";
     change_ := {| actions := acts; before := b; after := a;
                   before_sensitive := None;
                   after_sensitive := Some (VDict []);
                   after_unknown := unknown;
                   replace_paths := paths |} |}.

(** * The rest of the module and its utilities *)

(** No key occurs twice in the association list: the list stands for a
    Python [dict]. *)
Fixpoint unique_keys (d : dict) : bool :=
  match d with
  | [] => true
  | (k, _) :: d' => negb (existsb (String.eqb k) (map fst d')) && unique_keys d'
  end.

Definition unique_top (v : value) : bool :=
  match v with
  | VDict d => unique_keys d
  | _ => true
  end.

(** [unique_keys] at every depth. *)
Fixpoint well_formed (v : value) : bool :=
  match v with
  | VList l => forallb well_formed l
  | VDict d => unique_keys d && forallb (fun kv => well_formed (snd kv)) d
  | _ => true
  end.

(** The strict order of [sorted] on keys. *)
Definition key_lt (a b : key) : Prop := key_leb a b = true /\ a <> b.

(** [s.endswith(suffix)] *)
Fixpoint ends_with (suffix s : string) : bool :=
  String.eqb suffix s ||
  match s with
  | EmptyString => false
  | String _ s' => ends_with suffix s'
  end.

(** A non-empty text that starts at the indentation of [lvl] and ends with a
    newline. *)
Definition block_at (lvl : nat) (s : string) : Prop :=
  s <> "" /\ prefix (indent lvl) s = true /\ ends_with nl s = true.

(** The text [parse_changes] returns before the first block: the preamble
    without the newline it starts with. *)
Definition banner : string :=
  "Resource actions are indicated with the following symbols:" ++ nl
  ++ "    + create resource" ++ nl
  ++ "    - destroy resource" ++ nl
  ++ "    ~ update in-place" ++ nl
  ++ "    +/- create replacement and then destroy" ++ nl
  ++ nl
  ++ "Terraform will perform the following actions:" ++ nl.

(** Every string of more than 1000 characters replaced by [other] of it. *)
Fixpoint replace_large (other : string -> string) (v : value) : value :=
  match v with
  | VStr s => if (1000 <? String.length s)%nat then VStr (other s) else VStr s
  | VList l => VList (map (replace_large other) l)
  | VDict d => VDict (map (fun kv => (fst kv, replace_large other (snd kv))) d)
  | _ => v
  end.

(** ** The decorator of [main]

    [utilities/exception_handler.py]: the wrapped function is run, its
    value is discarded, and an exception of class [Exception] is logged and
    turned into [sys.exit(1)]; [SystemExit] is not of that class and passes
    through. *)

Definition is_Exception (e : exn) : bool :=
  match e with
  | SystemExit _ => false
  | _ => true
  end.

Section Handler.

(** The two [error] calls and the [debug] call of the handler; their text
    is that of the exception object. *)
Variable describe : exn -> list log_event.

Definition exception_handler {A : Type} (run : list log_event * result A)
    : list log_event * result unit :=
  match run with
  | (log, Ok _) => (log, Ok tt)
  | (log, Raise e) =>
      if is_Exception e then ((log ++ describe e)%list, Raise (SystemExit 1))
      else (log, Raise e)
  end.

End Handler.

(** The status [sys.exit(main())] ends the process with: 0 for [None], the
    code of a [SystemExit], 1 for any other exception. *)
Definition exit_status {A : Type} (r : result A) : Z :=
  match r with
  | Ok _ => 0%Z
  | Raise (SystemExit code) => code
  | Raise _ => 1%Z
  end.

(** ** The count of the actions in the execution log

    The loop of [main] over the lines of the execution log (lines 722-748),
    run when one of the four counts of the run is [None]. *)

(** [s.split(sep)] for a separator of one character. *)
Fixpoint split_on (sep : ascii) (s : string) : list string :=
  match s with
  | EmptyString => [EmptyString]
  | String c s' =>
      if Ascii.eqb c sep then EmptyString :: split_on sep s'
      else
        match split_on sep s' with
        | x :: xs => String c x :: xs
        | [] => [String c EmptyString]
        end
  end.

(** [k in x] and, when it holds, [x[k]]: [Ok None] when [k] is not in [x];
    TypeError when [x] is not iterable, or is a list or a string that holds
    [k], which a string cannot index. *)
Definition member_item (k : string) (x : value) : result (option value) :=
  match x with
  | VDict d => Ok (lookup k d)
  | VList l => if existsb (py_eq (VStr k)) l then Raise TypeError else Ok None
  | VStr s => if contains k s then Raise TypeError else Ok None
  | _ => Raise TypeError
  end.

(** [to_import], [to_add], [to_change], [to_destroy] *)
Record tally : Type := {
  to_import : nat;
  to_add : nat;
  to_change : nat;
  to_destroy : nat
}.

Definition no_tally : tally :=
  {| to_import := 0; to_add := 0; to_change := 0; to_destroy := 0 |}.

Definition tally_add (a b : tally) : tally :=
  {| to_import := to_import a + to_import b;
     to_add := to_add a + to_add b;
     to_change := to_change a + to_change b;
     to_destroy := to_destroy a + to_destroy b |}.

Definition tally_total (t : tally) : nat :=
  to_import t + to_add t + to_change t + to_destroy t.

Definition bool_nat (b : bool) : nat := if b then 1 else 0.

(** The four [if ... == ...: ... += 1] of the loop. *)
Definition bump (action : value) (t : tally) : tally :=
  {| to_import := to_import t + bool_nat (py_eq action (VStr "import"));
     to_add := to_add t + bool_nat (py_eq action (VStr "create"));
     to_change := to_change t + bool_nat (py_eq action (VStr "update"));
     to_destroy := to_destroy t + bool_nat (py_eq action (VStr "delete")) |}.

Definition applicable_action (execution_target : string) : string :=
  if String.eqb execution_target "plan" then "planned_change" else "apply_complete".

Section ExecutionLog.

Variable json_loads : string -> option value.

(** One iteration: the tally after the line. *)
Definition count_line (applicable : string) (t : tally) (line : string)
    : result tally :=
  match json_loads line with
  | None => Ok t
  | Some execution_data =>
      type_ <- member_item "type" execution_data ;;
      match type_ with
      | None => Ok t
      | Some type_ =>
          if negb (py_eq type_ (VStr applicable)) then Ok t
          else
            hook <- member_item "hook" execution_data ;;
            match hook with
            | None => Ok t
            | Some hook =>
                action <- member_item "action" hook ;;
                match action with
                | None => Ok t
                | Some action => Ok (bump action t)
                end
            end
      end
  end.

Fixpoint count_lines (applicable : string) (t : tally) (lines : list string)
    : result tally :=
  match lines with
  | [] => Ok t
  | line :: rest =>
      t' <- count_line applicable t line ;;
      count_lines applicable t' rest
  end.

(** The counts after the block: those of the run when none is [None], the
    tally of the log otherwise. *)
Definition resolve_counts (execution_target : string)
    (api : value * value * value * value) (log_text : string)
    : result (value * value * value * value) :=
  let '(i, a, c, d) := api in
  if is_none i || is_none a || is_none c || is_none d then
    t <- count_lines (applicable_action execution_target) no_tally
           (split_on "010" log_text) ;;
    Ok (VInt (Z.of_nat (to_import t)), VInt (Z.of_nat (to_add t)),
        VInt (Z.of_nat (to_change t)), VInt (Z.of_nat (to_destroy t)))
  else Ok api.

End ExecutionLog.

(** [True if any([to_import, to_add, to_change, to_destroy]) else False] *)
Definition changes (counts : value * value * value * value) : bool :=
  let '(i, a, c, d) := counts in
  truthy i || truthy a || truthy c || truthy d.

(** ** Logging and step outputs

    [utilities/logging.py] and [set_output] of [utilities/github_actions.py].
    A string is a sequence of characters of code below 256, so the two line
    boundaries U+2028 and U+2029 of [str.splitlines] do not occur. *)

(** The line boundaries of [str.splitlines]: LF, VT, FF, CR, FS, GS, RS and
    NEL; CR followed by LF is one boundary. *)
Definition is_break (c : ascii) : bool :=
  let n := nat_of_ascii c in
  ((n =? 10) || (n =? 11) || (n =? 12) || (n =? 13)
   || (n =? 28) || (n =? 29) || (n =? 30) || (n =? 133))%nat.

Definition has_break (s : string) : bool := existsb_char is_break s.

(** [after_cr] says that the character before [s] was a CR. *)
Fixpoint splitlines_from (after_cr : bool) (s : string) : list string :=
  match s with
  | EmptyString => []
  | String c s' =>
      if after_cr && Ascii.eqb c "010" then splitlines_from false s'
      else if is_break c then
        EmptyString :: splitlines_from (Ascii.eqb c "013") s'
      else
        match splitlines_from false s' with
        | x :: xs => String c x :: xs
        | [] => [String c EmptyString]
        end
  end.

(** [s.splitlines()] *)
Definition splitlines (s : string) : list string := splitlines_from false s.

(** What the loop [for line in msg.splitlines(): sys.stderr.write(...)]
    writes to the standard error. *)
Definition write_lines (level msg : string) : string :=
  String.concat "" (map (fun line => level ++ line ++ nl) (splitlines msg)).

Definition info (msg : string) : string := write_lines "" msg.
Definition debug (msg : string) : string := write_lines "::debug::" msg.
Definition warning (msg : string) : string := write_lines "::warning::" msg.
Definition error (msg : string) : string := write_lines "::error::" msg.

(** The text [set_output] appends; [delimiter] is the result of
    [generate_delimiter]. *)
Definition set_output_text (delimiter name value : string) : string :=
  if (1 <? List.length (splitlines value))%nat then
    name ++ "<<" ++ delimiter ++ nl
    ++ value
    ++ (if ends_with nl value then "" else nl)
    ++ delimiter ++ nl
  else name ++ "=" ++ value ++ nl.

(** [github_output] is the content of the file that the environment variable
    GITHUB_OUTPUT names, [None] when the variable is not set or names no
    file; the result is the content after the call. *)
Definition set_output (github_output : option string)
    (delimiter name value : string) : option string :=
  match github_output with
  | Some content => Some (content ++ set_output_text delimiter name value)
  | None => None
  end.

(** * Properties *)

(** ** Evaluation of the embedding on small inputs *)

Example render_dict_nested :
  render_dict [("a", VInt 1); ("b:c", VList [VStr "x"; VBool true; VNone])] false 1
  = "{" ++ nl ++ "      a = 1" ++ nl ++ "      " ++ dq ++ "b:c" ++ dq ++ " = [" ++ nl
    ++ "         " ++ dq ++ "x" ++ dq ++ nl ++ "         true" ++ nl
    ++ "         null" ++ nl ++ "      ]" ++ nl ++ "   }".
Proof. reflexivity. Qed.

Example loads_object :
  Json.loads ("{" ++ dq ++ "a" ++ dq ++ ": [1, -20, true, null, " ++ dq ++ "x" ++ dq ++ "] , "
              ++ dq ++ "b" ++ dq ++ ":{}}")
  = Some (VDict [("a", VList [VInt 1; VInt (-20); VBool true; VNone; VStr "x"]);
                 ("b", VDict [])]).
Proof. reflexivity. Qed.

Example loads_rejects :
  Json.loads "a" = None /\ Json.loads "b" = None /\ Json.loads "01" = None
  /\ Json.loads "[1,]" = None /\ Json.loads "" = None /\ Json.loads "1 2" = None.
Proof. repeat split; reflexivity. Qed.

Example loads_scalars :
  Json.loads " 1" = Some (VInt 1) /\ Json.loads "null" = Some VNone
  /\ Json.loads (dq ++ "x" ++ dq) = Some (VStr "x").
Proof. repeat split; reflexivity. Qed.

(** The scenario of the specification with one changed string. *)
Example compare_values_update :
  forall frames,
    compare_values Json.loads (S frames)
      (VDict [("a", VStr "x"); ("b", VInt 1)])
      (VDict [("a", VStr "y"); ("b", VInt 1)]) [] [] [] VNone 1
    = Ok ("   ~ a = " ++ dq ++ "x" ++ dq ++ " -> " ++ dq ++ "y" ++ dq ++ nl).
Proof. intros frames. reflexivity. Qed.

(** A replaced resource, as [parse_changes] returns it. *)
Example parse_changes_replace :
  parse_changes Json.loads 3
    [web ["delete"; "create"]
       (VDict [("ami", VStr "ami-1"); ("id", VStr "i-1")])
       (VDict [("ami", VStr "ami-2")])
       (Some (VDict [("id", VBool true)]))
       (Some (VList [VList [VStr "ami"]]))]
  = ([],
     Ok ("Resource actions are indicated with the following symbols:" ++ nl
         ++ "    + create resource" ++ nl
         ++ "    - destroy resource" ++ nl
         ++ "    ~ update in-place" ++ nl
         ++ "    +/- create replacement and then destroy" ++ nl
         ++ nl
         ++ "Terraform will perform the following actions:" ++ nl
         ++ nl
         ++ "# Provider: [registry.terraform.io/hashicorp/aws]" ++ nl
         ++ "# Resource Type: [aws_instance]" ++ nl
         ++ "# Resource Identifier: [aws_instance.web]" ++ nl
         ++ "# Message: This resource must be replaced." ++ nl
         ++ "+/- resource " ++ dq ++ "aws_instance" ++ dq ++ " " ++ dq ++ "web" ++ dq
         ++ " {" ++ nl
         ++ "   ~ ami = " ++ dq ++ "ami-1" ++ dq ++ " -> " ++ dq ++ "ami-2" ++ dq
         ++ " -> (Forces Replacement)" ++ nl
         ++ "   ~ id = " ++ dq ++ "i-1" ++ dq ++ " -> (Known After Apply)" ++ nl
         ++ "}" ++ nl
         ++ nl)).
Proof. reflexivity. Qed.

(** An action set the classifier does not know ends the call, and the
    records after it are not read. *)
Example parse_changes_aborts :
  parse_changes Json.loads 3
    [web ["create"] VNone (VDict [("ami", VStr "ami-1")]) None None;
     web ["import"] VNone VNone None None;
     web ["create"] VNone (VDict [("ami", VStr "ami-2")]) None None]
  = ([LogError "Failed to parse plan action on resource [aws_instance.web]"],
     Raise (SystemExit 1)).
Proof. reflexivity. Qed.

(** An attribute that is a mapping before and a list after ends the call
    with TypeError. *)
Example parse_changes_mixed_keys :
  parse_changes Json.loads 3
    [web ["update"] (VDict [("rules", VDict [("a", VInt 1)])])
       (VDict [("rules", VList [VInt 1])]) None None]
  = ([], Raise TypeError).
Proof. reflexivity. Qed.

(** ** Basic facts *)

Lemma py_eq_None_r (v : value) : py_eq v VNone = is_none v.
Proof. destruct v; reflexivity. Qed.

Lemma compare_values_S loads frames before after bsens asens unk rp lvl :
  compare_values loads (S frames) before after bsens asens unk rp lvl
  = (attributes <- sorted_set (keys_of before ++ keys_of after)%list ;;
     for_each
       (compare_attribute loads (compare_values loads frames) before after
          bsens asens unk rp lvl)
       attributes).
Proof. reflexivity. Qed.

Lemma symbol_cases (bv av : value) :
  symbol bv av =
  if is_none bv && negb (is_none av) then "+"
  else if negb (is_none bv) && is_none av then "-"
  else "~".
Proof. unfold symbol. rewrite !py_eq_None_r. reflexivity. Qed.

(** ** The value renderer *)

Lemma length_repeat_char (c : ascii) (n : nat) :
  String.length (repeat_char c n) = n.
Proof. induction n as [|n IH]; simpl; congruence. Qed.

(** C8: a string of more than 1000 characters renders as
    [(Hidden Large Value)], in [render_string], as a value of the renderer
    at any indentation, and on either side of a line of the comparator that
    is not redacted. *)
Theorem render_string_hides_large (data : string) :
  1000 < String.length data ->
  render_string data = "(Hidden Large Value)"
  /\ (forall start_with_indention indention_level,
        render_value (VStr data) start_with_indention indention_level
        = "(Hidden Large Value)")
  /\ (forall indention_level,
        before_value_rendered false (VStr data) indention_level
        = "(Hidden Large Value)"
        /\ after_value_rendered false false (VStr data) indention_level
           = "(Hidden Large Value)").
Proof.
  intros Hlen.
  assert (Hs : render_string data = "(Hidden Large Value)").
  { unfold render_string.
    destruct (Nat.ltb_spec 1000 (String.length data)) as [_|Hle]; [reflexivity|lia]. }
  repeat split; intros; simpl; exact Hs.
Qed.

Lemma render_string_hides_large_witness :
  render_string (repeat_char "a" 1001) = "(Hidden Large Value)".
Proof.
  apply (render_string_hides_large (repeat_char "a" 1001)).
  rewrite length_repeat_char. lia.
Defined.

(** ** The attribute key set *)

(** C3: when the union of the keys holds a list index and a mapping key, the
    call of [sorted] raises TypeError and [compare_values] returns no
    string. *)
Theorem mixed_key_types_raise :
  forall loads frames before after bsens asens unk rp lvl,
    existsb is_int_key (keys_of before ++ keys_of after) = true ->
    existsb is_str_key (keys_of before ++ keys_of after) = true ->
    compare_values loads (S frames) before after bsens asens unk rp lvl
    = Raise TypeError.
Proof.
  intros loads frames before after bsens asens unk rp lvl Hint Hstr.
  rewrite compare_values_S. unfold sorted_set.
  rewrite Hint, Hstr. reflexivity.
Qed.

Lemma mixed_key_types_raise_witness :
  compare_values Json.loads 1 (VDict [("a", VInt 1)]) (VList [VInt 1])
    [] [] [] VNone 1
  = Raise TypeError.
Proof.
  apply (mixed_key_types_raise Json.loads 0 (VDict [("a", VInt 1)]) (VList [VInt 1]));
    reflexivity.
Defined.

(** ** The leaf case *)

(** An attribute whose values differ and whose decoded before value is not a
    non-empty mapping or list takes the leaf case. *)
Lemma compare_attribute_leaf loads recurse before after bsens asens unk rp lvl
    attribute forces :
  negb (py_eq (before_value_of before attribute)
              (after_value_of after unk attribute)) = true ->
  forces_replacement rp lvl attribute = Ok forces ->
  (is_dict (try_json_loads loads (before_value_of before attribute))
   || is_list (try_json_loads loads (before_value_of before attribute)))
  && truthy (try_json_loads loads (before_value_of before attribute)) = false ->
  compare_attribute loads recurse before after bsens asens unk rp lvl attribute
  = Ok (leaf_line lvl attribute
          (try_json_loads loads (before_value_of before attribute))
          (try_json_loads loads (after_value_of after unk attribute))
          (before_value_rendered (before_sensitive_bool bsens attribute)
             (try_json_loads loads (before_value_of before attribute)) lvl)
          (after_value_rendered (after_sensitive_bool asens attribute)
             (after_unknown_bool unk attribute)
             (try_json_loads loads (after_value_of after unk attribute)) lvl)
          forces).
Proof.
  intros Hdiff Hforces Hleaf. apply negb_true_iff in Hdiff.
  unfold compare_attribute. rewrite Hdiff, Hforces. cbv zeta. unfold bind.
  destruct (is_dict (try_json_loads loads (before_value_of before attribute))),
    (is_list (try_json_loads loads (before_value_of before attribute))),
    (truthy (try_json_loads loads (before_value_of before attribute)));
    simpl in Hleaf; try discriminate Hleaf; reflexivity.
Qed.

(** C7, as the specification states it: the nested block of the list
    scenario is not the text with the line [~ 1 -> 3]. *)
Lemma list_scenario_not_as_stated :
  compare_values Json.loads 2
    (VDict [("list", VList [VInt 1; VInt 2])])
    (VDict [("list", VList [VInt 1; VInt 3])]) [] [] [] VNone 1
  <> Ok ("   list = [" ++ nl ++ "      ~ 1 -> 3" ++ nl ++ "   ]" ++ nl).
Proof. vm_compute. discriminate. Qed.

(** C7, amended: index 0 is unchanged and omitted, and index 1 gives the
    line [~ 1 = 2 -> 3], the index, the old element and the new one. *)
Theorem list_scenario :
  forall loads frames,
    compare_values loads (S (S frames))
      (VDict [("list", VList [VInt 1; VInt 2])])
      (VDict [("list", VList [VInt 1; VInt 3])]) [] [] [] VNone 1
    = Ok ("   list = [" ++ nl ++ "      ~ 1 = 2 -> 3" ++ nl ++ "   ]" ++ nl).
Proof. intros loads frames. reflexivity. Qed.

(** C4, as the specification states it: a list index whose value is null
    before and null after keeps its key in the line. *)
Lemma null_index_keeps_key :
  try_json_loads Json.loads (before_value_of (VList [VStr "null"]) (KInt 0)) = VNone
  /\ compare_values Json.loads 1 (VList [VStr "null"]) (VList [VNone])
       [] [] [] VNone 1
     = Ok ("   ~ 0 = null -> null" ++ nl).
Proof. split; reflexivity. Qed.

(** C4, amended: the symbol is [+] exactly when before is null and after is
    not, [-] exactly when before is not null and after is null, and [~]
    otherwise; the line has no key when before is null, after is not null
    and the key is a list index, no before side when before is null, after
    is not null and the key is a mapping key, and both sides otherwise; an
    attribute whose values differ and whose decoded before value is not a
    non-empty mapping or list gets that line; the creation of [{"a": 1}]
    gives the line [+ a = 1]. *)
Theorem leaf_symbol_and_line :
  forall lvl attribute bv av br ar forces,
    (symbol bv av = "+" <-> is_none bv = true /\ is_none av = false)
    /\ (symbol bv av = "-" <-> is_none bv = false /\ is_none av = true)
    /\ (symbol bv av = "~" <-> is_none bv = is_none av)
    /\ (is_none bv = true -> is_none av = false -> is_int_key attribute = true ->
        leaf_line lvl attribute bv av br ar forces
        = indent lvl ++ "+ " ++ ar ++ annotation forces)
    /\ (is_none bv = true -> is_none av = false -> is_int_key attribute = false ->
        leaf_line lvl attribute bv av br ar forces
        = indent lvl ++ "+ " ++ attributed_rendered attribute ++ " = " ++ ar
          ++ annotation forces)
    /\ (is_none bv = false \/ is_none av = true ->
        leaf_line lvl attribute bv av br ar forces
        = indent lvl ++ symbol bv av ++ " " ++ attributed_rendered attribute
          ++ " = " ++ br ++ " -> " ++ ar ++ annotation forces)
    /\ (forall loads recurse before after bsens asens unk rp,
          negb (py_eq (before_value_of before attribute)
                      (after_value_of after unk attribute)) = true ->
          forces_replacement rp lvl attribute = Ok forces ->
          (is_dict (try_json_loads loads (before_value_of before attribute))
           || is_list (try_json_loads loads (before_value_of before attribute)))
          && truthy (try_json_loads loads (before_value_of before attribute))
          = false ->
          compare_attribute loads recurse before after bsens asens unk rp lvl
            attribute
          = Ok (leaf_line lvl attribute
                  (try_json_loads loads (before_value_of before attribute))
                  (try_json_loads loads (after_value_of after unk attribute))
                  (before_value_rendered (before_sensitive_bool bsens attribute)
                     (try_json_loads loads (before_value_of before attribute)) lvl)
                  (after_value_rendered (after_sensitive_bool asens attribute)
                     (after_unknown_bool unk attribute)
                     (try_json_loads loads (after_value_of after unk attribute))
                     lvl)
                  forces))
    /\ (forall loads frames,
          compare_values loads (S frames) VNone (VDict [("a", VInt 1)])
            [] [] [] VNone 1
          = Ok ("   + a = 1" ++ nl)).
Proof.
  intros lvl attribute bv av br ar forces.
  assert (Hleaf := fun loads recurse before after bsens asens unk rp =>
            compare_attribute_leaf loads recurse before after bsens asens unk rp
              lvl attribute forces).
  rewrite symbol_cases. unfold leaf_line. rewrite symbol_cases.
  destruct (is_none bv), (is_none av); simpl;
    repeat split; intros; try discriminate; try reflexivity;
    try match goal with H : _ /\ _ |- _ => destruct H; discriminate end;
    try match goal with H : _ \/ _ |- _ => destruct H; discriminate end;
    try match goal with H : is_int_key _ = _ |- _ => rewrite H; reflexivity end;
    try (apply Hleaf; assumption).
Qed.

(** ** The loop and its pieces *)

Lemma append_nil_r (s : string) : s ++ "" = s.
Proof. induction s as [|c s IH]; simpl; congruence. Qed.

Lemma append_assoc (a b c : string) : (a ++ b) ++ c = a ++ b ++ c.
Proof. induction a as [|x a IH]; simpl; congruence. Qed.

Lemma for_each_ext (f g : key -> result string) (attributes : list key) :
  (forall a, In a attributes -> f a = g a) ->
  for_each f attributes = for_each g attributes.
Proof.
  induction attributes as [|a rest IH]; intros Hfg; simpl; [reflexivity|].
  rewrite (Hfg a (or_introl eq_refl)), IH; [reflexivity|].
  intros b Hb. apply Hfg. right. exact Hb.
Qed.

(** Attributes whose piece is empty can be left out of the loop. *)
Lemma for_each_filter (f : key -> result string) (keep : key -> bool)
    (attributes : list key) :
  (forall a, In a attributes -> keep a = false -> f a = Ok "") ->
  for_each f attributes = for_each f (filter keep attributes).
Proof.
  induction attributes as [|a rest IH]; intros Hskip; simpl; [reflexivity|].
  assert (IH' : for_each f rest = for_each f (filter keep rest)).
  { apply IH. intros b Hb. apply Hskip. right. exact Hb. }
  destruct (keep a) eqn:Hkeep; simpl.
  - rewrite IH'. reflexivity.
  - rewrite (Hskip a (or_introl eq_refl) Hkeep). simpl.
    rewrite IH'. destruct (for_each f (filter keep rest)); reflexivity.
Qed.

(** C1, as the specification states it: two strings that differ as text and
    decode to the same JSON document are not suppressed; the key gets a
    nested block with an empty body, or a line when the document is a
    scalar. *)
Lemma json_equal_strings_not_suppressed :
  Json.loads ("{" ++ dq ++ "a" ++ dq ++ ":1}") = Some (VDict [("a", VInt 1)])
  /\ Json.loads ("{" ++ dq ++ "a" ++ dq ++ ": 1}") = Some (VDict [("a", VInt 1)])
  /\ compare_values Json.loads 2
       (VDict [("policy", VStr ("{" ++ dq ++ "a" ++ dq ++ ":1}"))])
       (VDict [("policy", VStr ("{" ++ dq ++ "a" ++ dq ++ ": 1}"))])
       [] [] [] VNone 1
     = Ok ("   policy = {" ++ nl ++ "   }" ++ nl)
  /\ compare_values Json.loads 1
       (VDict [("n", VStr "1")]) (VDict [("n", VStr " 1")]) [] [] [] VNone 1
     = Ok ("   ~ n = 1 -> 1" ++ nl).
Proof. repeat split; reflexivity. Qed.

(** C1, amended: an attribute whose resolved before and after values are
    equal as they stand, before any decoding of embedded JSON, adds nothing
    to the result, and the comparator returns what its loop returns over the
    attributes whose values differ. *)
Theorem equal_values_suppressed :
  forall loads before after bsens asens unk rp lvl,
    (forall recurse attribute,
        py_eq (before_value_of before attribute)
              (after_value_of after unk attribute) = true ->
        compare_attribute loads recurse before after bsens asens unk rp lvl
          attribute = Ok "")
    /\ (forall frames attributes,
          sorted_set (keys_of before ++ keys_of after) = Ok attributes ->
          compare_values loads (S frames) before after bsens asens unk rp lvl
          = for_each
              (compare_attribute loads (compare_values loads frames) before
                 after bsens asens unk rp lvl)
              (filter (differs before after unk) attributes)).
Proof.
  intros loads before after bsens asens unk rp lvl.
  assert (Hskip : forall recurse attribute,
             py_eq (before_value_of before attribute)
                   (after_value_of after unk attribute) = true ->
             compare_attribute loads recurse before after bsens asens unk rp lvl
               attribute = Ok "").
  { intros recurse attribute Heq. unfold compare_attribute.
    rewrite Heq. reflexivity. }
  split; [exact Hskip|].
  intros frames attributes Hsorted.
  rewrite compare_values_S, Hsorted. simpl.
  apply for_each_filter.
  intros a _ Hkeep. apply Hskip.
  unfold differs in Hkeep. apply negb_false_iff in Hkeep. exact Hkeep.
Qed.

(** ** Redaction *)

Lemma marked_true_marked (m : dict) (attribute : key) :
  marked_true m attribute -> marked m attribute = true.
Proof.
  intros [s [-> [H|H]]]; unfold marked; rewrite H; reflexivity.
Qed.

Lemma named_sensitive_name (attribute : key) :
  named_sensitive attribute -> sensitive_name attribute = true.
Proof.
  intros [check [Hin Hc]]. unfold sensitive_name.
  apply existsb_exists. exists check. split; assumption.
Qed.

Lemma sensitive_before (bsens : dict) (attribute : key) :
  marked_true bsens attribute \/ named_sensitive attribute ->
  before_sensitive_bool bsens attribute = true.
Proof.
  unfold before_sensitive_bool. intros [H|H].
  - rewrite (marked_true_marked _ _ H). reflexivity.
  - rewrite (named_sensitive_name _ H). apply orb_true_r.
Qed.

Lemma sensitive_after (asens : dict) (attribute : key) :
  marked_true asens attribute \/ named_sensitive attribute ->
  after_sensitive_bool asens attribute = true.
Proof.
  unfold after_sensitive_bool. intros [H|H].
  - rewrite (marked_true_marked _ _ H). reflexivity.
  - rewrite (named_sensitive_name _ H). apply orb_true_r.
Qed.

(** A sensitive or unknown attribute whose values differ takes the leaf
    case, whatever the shape of its values. *)
Lemma compare_attribute_opaque loads recurse before after bsens asens unk rp lvl
    attribute forces :
  differs before after unk attribute = true ->
  forces_replacement rp lvl attribute = Ok forces ->
  before_sensitive_bool bsens attribute
  || after_sensitive_bool asens attribute
  || after_unknown_bool unk attribute = true ->
  compare_attribute loads recurse before after bsens asens unk rp lvl attribute
  = Ok (leaf_line lvl attribute
          (parsed_before loads before attribute)
          (parsed_after loads after unk attribute)
          (before_value_rendered (before_sensitive_bool bsens attribute)
             (parsed_before loads before attribute) lvl)
          (after_value_rendered (after_sensitive_bool asens attribute)
             (after_unknown_bool unk attribute)
             (parsed_after loads after unk attribute) lvl)
          forces).
Proof.
  intros Hdiff Hforces Hflag.
  unfold differs in Hdiff. apply negb_true_iff in Hdiff.
  unfold compare_attribute, parsed_before, parsed_after.
  rewrite Hdiff, Hforces. cbv zeta. unfold bind.
  destruct (before_sensitive_bool bsens attribute),
    (after_sensitive_bool asens attribute),
    (after_unknown_bool unk attribute);
    try discriminate Hflag;
    rewrite ?andb_false_r; reflexivity.
Qed.

(** The line depends on the two values only through their being null. *)
Lemma leaf_line_nullness lvl attribute bv bv' av av' br ar forces :
  is_none bv' = is_none bv ->
  is_none av' = is_none av ->
  leaf_line lvl attribute bv' av' br ar forces
  = leaf_line lvl attribute bv av br ar forces.
Proof.
  intros Hb Ha. unfold leaf_line.
  rewrite !symbol_cases, Hb, Ha. reflexivity.
Qed.

(** Every format of the line ends with the after side and the annotation. *)
Lemma leaf_line_after lvl attribute bv av br :
  exists head,
    forall ar forces,
      leaf_line lvl attribute bv av br ar forces = head ++ ar ++ annotation forces.
Proof.
  unfold leaf_line.
  destruct (is_none bv && negb (is_none av)); [destruct (is_int_key attribute)|].
  - exists (indent lvl ++ symbol bv av ++ " "). intros ar forces.
    rewrite !append_assoc. reflexivity.
  - exists (indent lvl ++ symbol bv av ++ " " ++ attributed_rendered attribute ++ " = ").
    intros ar forces. rewrite !append_assoc. reflexivity.
  - exists (indent lvl ++ symbol bv av ++ " " ++ attributed_rendered attribute
            ++ " = " ++ br ++ " -> ").
    intros ar forces. rewrite !append_assoc. reflexivity.
Qed.

(** X1: an attribute that the loop of the comparator reaches, whose values
    differ and that is sensitive on the before side (the before map gives
    it [True] or [[True]], or its name holds one of the five substrings)
    gets the line of the leaf case with
    [(Sensitive Data)] as its before side, and that line is the same for any
    other before value with the same nullness; likewise on the after side;
    the key [db_password] with ["a"] before and ["b"] after renders as
    [~ db_password = (Sensitive Data) -> (Sensitive Data)] whatever the
    three maps hold. *)
Theorem sensitive_side_redacted :
  forall loads recurse before after bsens asens unk rp lvl attribute forces,
    differs before after unk attribute = true ->
    forces_replacement rp lvl attribute = Ok forces ->
    (marked_true bsens attribute \/ named_sensitive attribute ->
     compare_attribute loads recurse before after bsens asens unk rp lvl attribute
     = Ok (leaf_line lvl attribute
             (parsed_before loads before attribute)
             (parsed_after loads after unk attribute)
             "(Sensitive Data)"
             (after_value_rendered (after_sensitive_bool asens attribute)
                (after_unknown_bool unk attribute)
                (parsed_after loads after unk attribute) lvl)
             forces)
     /\ (forall before',
           differs before' after unk attribute = true ->
           is_none (parsed_before loads before' attribute)
           = is_none (parsed_before loads before attribute) ->
           compare_attribute loads recurse before' after bsens asens unk rp lvl
             attribute
           = compare_attribute loads recurse before after bsens asens unk rp lvl
               attribute))
    /\ (marked_true asens attribute \/ named_sensitive attribute ->
        compare_attribute loads recurse before after bsens asens unk rp lvl attribute
        = Ok (leaf_line lvl attribute
                (parsed_before loads before attribute)
                (parsed_after loads after unk attribute)
                (before_value_rendered (before_sensitive_bool bsens attribute)
                   (parsed_before loads before attribute) lvl)
                "(Sensitive Data)"
                forces)
        /\ (forall after',
              differs before after' unk attribute = true ->
              is_none (parsed_after loads after' unk attribute)
              = is_none (parsed_after loads after unk attribute) ->
              compare_attribute loads recurse before after' bsens asens unk rp lvl
                attribute
              = compare_attribute loads recurse before after bsens asens unk rp lvl
                  attribute))
    /\ (forall frames bsens' asens' unk',
          compare_values Json.loads (S frames)
            (VDict [("db_password", VStr "a")])
            (VDict [("db_password", VStr "b")]) bsens' asens' unk' VNone 1
          = Ok ("   ~ db_password = (Sensitive Data) -> (Sensitive Data)" ++ nl)).
Proof.
  intros loads recurse before after bsens asens unk rp lvl attribute forces
    Hdiff Hforces.
  split; [|split].
  - intros Hsens. pose proof (sensitive_before bsens attribute Hsens) as Hb.
    split.
    + rewrite (compare_attribute_opaque _ _ _ _ _ _ _ _ _ _ _ Hdiff Hforces)
        by (rewrite Hb; reflexivity).
      rewrite Hb. reflexivity.
    + intros before' Hdiff' Hnull.
      rewrite (compare_attribute_opaque _ _ _ _ _ _ _ _ _ _ _ Hdiff' Hforces)
        by (rewrite Hb; reflexivity).
      rewrite (compare_attribute_opaque _ _ _ _ _ _ _ _ _ _ _ Hdiff Hforces)
        by (rewrite Hb; reflexivity).
      rewrite Hb. unfold before_value_rendered.
      f_equal. apply leaf_line_nullness; [exact Hnull|reflexivity].
  - intros Hsens. pose proof (sensitive_after asens attribute Hsens) as Ha.
    split.
    + rewrite (compare_attribute_opaque _ _ _ _ _ _ _ _ _ _ _ Hdiff Hforces)
        by (rewrite Ha; apply orb_true_iff; left; apply orb_true_r).
      rewrite Ha. reflexivity.
    + intros after' Hdiff' Hnull.
      rewrite (compare_attribute_opaque _ _ _ _ _ _ _ _ _ _ _ Hdiff' Hforces)
        by (rewrite Ha; apply orb_true_iff; left; apply orb_true_r).
      rewrite (compare_attribute_opaque _ _ _ _ _ _ _ _ _ _ _ Hdiff Hforces)
        by (rewrite Ha; apply orb_true_iff; left; apply orb_true_r).
      rewrite Ha. unfold after_value_rendered.
      rewrite (leaf_line_nullness lvl attribute
                 (parsed_before loads before attribute)
                 (parsed_before loads before attribute)
                 (parsed_after loads after unk attribute)
                 (parsed_after loads after' unk attribute)
                 _ "(Sensitive Data)" forces eq_refl Hnull).
      reflexivity.
  - intros frames bsens' asens' unk'.
    rewrite compare_values_S.
    change (sorted_set (keys_of (VDict [("db_password", VStr "a")])
                        ++ keys_of (VDict [("db_password", VStr "b")])))
      with (Ok [KStr "db_password"]).
    cbn [bind for_each].
    assert (Hname : named_sensitive (KStr "db_password")).
    { exists "pass". split; [simpl; auto|reflexivity]. }
    rewrite (compare_attribute_opaque Json.loads _
               (VDict [("db_password", VStr "a")])
               (VDict [("db_password", VStr "b")]) bsens' asens' unk' VNone 1
               (KStr "db_password") false eq_refl eq_refl)
      by (rewrite (sensitive_before bsens' _ (or_intror Hname)); reflexivity).
    rewrite (sensitive_before bsens' _ (or_intror Hname)).
    rewrite (sensitive_after asens' _ (or_intror Hname)).
    reflexivity.
Qed.

Lemma sensitive_side_redacted_witness :
  compare_attribute Json.loads (compare_values Json.loads 0)
    (VDict [("db_password", VStr "a")]) (VDict [("db_password", VStr "b")])
    [] [] [] VNone 1 (KStr "db_password")
  = Ok ("   ~ db_password = (Sensitive Data) -> (Sensitive Data)" ++ nl).
Proof.
  destruct (sensitive_side_redacted Json.loads (compare_values Json.loads 0)
              (VDict [("db_password", VStr "a")])
              (VDict [("db_password", VStr "b")])
              [] [] [] VNone 1 (KStr "db_password") false eq_refl eq_refl)
    as [Hbefore _].
  destruct Hbefore as [Hline _].
  - right. exists "pass". split; [simpl; auto|reflexivity].
  - exact Hline.
Defined.

(** C2: a sensitive key inside a block that is rendered whole keeps its
    value in the output.  The created block [config] holds the key
    [password], whose lowercased name contains [pass]; the comparator
    renders the block whole with [render_dict], which redacts nothing, and
    the value of [password] stands in the output, with empty maps and with
    the maps that mark the nested key. *)
Theorem nested_sensitive_key_rendered :
  named_sensitive (KStr "password")
  /\ (forall frames,
        compare_values Json.loads (S frames) VNone
          (VDict [("config", VDict [("password", VStr "hunter2")])])
          [] [] [] VNone 1
        = Ok ("   + config = {" ++ nl
              ++ "         password = " ++ dq ++ "hunter2" ++ dq ++ nl
              ++ "      }" ++ nl))
  /\ (forall frames,
        compare_values Json.loads (S frames) VNone
          (VDict [("config", VDict [("password", VStr "hunter2")])])
          [] [("config", VDict [("password", VBool true)])] [] VNone 1
        = Ok ("   + config = {" ++ nl
              ++ "         password = " ++ dq ++ "hunter2" ++ dq ++ nl
              ++ "      }" ++ nl))
  /\ (forall frames,
        compare_values Json.loads (S frames) VNone
          (VDict [("password", VStr "hunter2")]) [] [] [] VNone 1
        = Ok ("   + password = (Sensitive Data)" ++ nl)).
Proof.
  split; [exists "pass"; split; [simpl; auto|reflexivity]|].
  repeat split; intros frames; reflexivity.
Qed.

(** C6: an attribute whose values differ, that the unknown map gives [True]
    or [[True]] and that is not sensitive on the after side gets the line of
    the leaf case with [(Known After Apply)] as its after side: the line
    ends with the placeholder and the annotation, and it is the same for
    any other after tree that leaves the value's nullness as it is. *)
Theorem unknown_after_placeholder :
  forall loads recurse before after bsens asens unk rp lvl attribute forces,
    differs before after unk attribute = true ->
    forces_replacement rp lvl attribute = Ok forces ->
    marked_true unk attribute ->
    after_sensitive_bool asens attribute = false ->
    compare_attribute loads recurse before after bsens asens unk rp lvl attribute
    = Ok (leaf_line lvl attribute
            (parsed_before loads before attribute)
            (parsed_after loads after unk attribute)
            (before_value_rendered (before_sensitive_bool bsens attribute)
               (parsed_before loads before attribute) lvl)
            "(Known After Apply)"
            forces)
    /\ (exists head,
          compare_attribute loads recurse before after bsens asens unk rp lvl
            attribute
          = Ok (head ++ "(Known After Apply)" ++ annotation forces))
    /\ (forall after',
          differs before after' unk attribute = true ->
          is_none (parsed_after loads after' unk attribute)
          = is_none (parsed_after loads after unk attribute) ->
          compare_attribute loads recurse before after' bsens asens unk rp lvl
            attribute
          = compare_attribute loads recurse before after bsens asens unk rp lvl
              attribute).
Proof.
  intros loads recurse before after bsens asens unk rp lvl attribute forces
    Hdiff Hforces Hunk Hnot.
  assert (Hu : after_unknown_bool unk attribute = true)
    by (apply marked_true_marked; exact Hunk).
  assert (Hline :
    compare_attribute loads recurse before after bsens asens unk rp lvl attribute
    = Ok (leaf_line lvl attribute
            (parsed_before loads before attribute)
            (parsed_after loads after unk attribute)
            (before_value_rendered (before_sensitive_bool bsens attribute)
               (parsed_before loads before attribute) lvl)
            "(Known After Apply)"
            forces)).
  { rewrite (compare_attribute_opaque _ _ _ _ _ _ _ _ _ _ _ Hdiff Hforces)
      by (rewrite Hu; apply orb_true_r).
    rewrite Hu, Hnot. reflexivity. }
  split; [exact Hline|]. split.
  - destruct (leaf_line_after lvl attribute
                (parsed_before loads before attribute)
                (parsed_after loads after unk attribute)
                (before_value_rendered (before_sensitive_bool bsens attribute)
                   (parsed_before loads before attribute) lvl)) as [head Hhead].
    exists head. rewrite Hline, Hhead. reflexivity.
  - intros after' Hdiff' Hnull.
    rewrite (compare_attribute_opaque _ _ _ _ _ _ _ _ _ _ _ Hdiff' Hforces)
      by (rewrite Hu; apply orb_true_r).
    rewrite (compare_attribute_opaque _ _ _ _ _ _ _ _ _ _ _ Hdiff Hforces)
      by (rewrite Hu; apply orb_true_r).
    rewrite Hu, Hnot. unfold after_value_rendered.
    f_equal. apply leaf_line_nullness; [reflexivity|exact Hnull].
Qed.

Lemma unknown_after_placeholder_witness :
  compare_attribute Json.loads (compare_values Json.loads 0)
    (VDict [("id", VStr "i-1")]) (VDict [])
    [] [] [("id", VBool true)] VNone 1 (KStr "id")
  = Ok ("   ~ id = " ++ dq ++ "i-1" ++ dq ++ " -> (Known After Apply)" ++ nl).
Proof.
  destruct (unknown_after_placeholder Json.loads (compare_values Json.loads 0)
              (VDict [("id", VStr "i-1")]) (VDict [])
              [] [] [("id", VBool true)] VNone 1 (KStr "id") false
              eq_refl eq_refl) as [Hline _].
  - exists "id". split; [reflexivity|left; reflexivity].
  - reflexivity.
  - exact Hline.
Defined.

(** ** The replacement annotation and the nested calls *)

Lemma forces_replacement_true_iff (rp : value) (lvl : nat) (attribute : key) :
  forces_replacement rp lvl attribute = Ok true
  <-> lvl = 1 /\ truthy rp = true /\ py_in attribute rp = Ok true.
Proof.
  unfold forces_replacement.
  destruct (truthy rp); destruct (Nat.eqb_spec lvl 1) as [Hl|Hl]; simpl; split;
    try (intros H; discriminate H);
    try (intros [H1 [H2 H3]]; first [discriminate H2 | contradiction | exact H3]).
  intros H. repeat split; assumption.
Qed.

Lemma forces_replacement_nested (rp : value) (lvl : nat) (attribute : key) :
  lvl <> 1 -> forces_replacement rp lvl attribute = Ok false.
Proof.
  intros Hl. unfold forces_replacement.
  destruct (Nat.eqb_spec lvl 1) as [Heq|_]; [contradiction|].
  rewrite andb_false_r. reflexivity.
Qed.

(** Below the first level the replacement set has no effect. *)
Lemma compare_values_nested_rp loads frames before after bsens asens unk rp lvl :
  lvl <> 1 ->
  compare_values loads frames before after bsens asens unk rp lvl
  = compare_values loads frames before after bsens asens unk VNone lvl.
Proof.
  intros Hl. destruct frames as [|frames]; [reflexivity|].
  rewrite !compare_values_S.
  destruct (sorted_set (keys_of before ++ keys_of after)) as [attributes|e];
    [|reflexivity].
  simpl. apply for_each_ext. intros a _.
  unfold compare_attribute.
  rewrite (forces_replacement_nested rp lvl a Hl).
  rewrite (forces_replacement_nested VNone lvl a Hl).
  reflexivity.
Qed.

(** An iteration calls [compare_values] with the decoded values, the three
    maps it was given, no replacement set and the next level, and with
    nothing else. *)
Lemma compare_attribute_recurse loads recurse1 recurse2 before after bsens asens
    unk rp lvl attribute :
  recurse1 (parsed_before loads before attribute)
    (parsed_after loads after unk attribute) bsens asens unk VNone (lvl + 1)
  = recurse2 (parsed_before loads before attribute)
      (parsed_after loads after unk attribute) bsens asens unk VNone (lvl + 1) ->
  compare_attribute loads recurse1 before after bsens asens unk rp lvl attribute
  = compare_attribute loads recurse2 before after bsens asens unk rp lvl attribute.
Proof.
  unfold parsed_before, parsed_after, compare_attribute. intros Hcall.
  rewrite Hcall. reflexivity.
Qed.

(** The piece of an attribute whose values differ is a head, the annotation
    and a tail; the head and the tail do not depend on the replacement set. *)
Lemma compare_attribute_shape loads recurse before after bsens asens unk lvl
    attribute :
  differs before after unk attribute = true ->
  exists head tail,
    forall rp forces,
      forces_replacement rp lvl attribute = Ok forces ->
      compare_attribute loads recurse before after bsens asens unk rp lvl attribute
      = (rest <- tail ;; Ok (head ++ annotation forces ++ rest)).
Proof.
  intros Hdiff. unfold differs in Hdiff. apply negb_true_iff in Hdiff.
  unfold compare_attribute. rewrite Hdiff. cbv zeta.
  set (bv := try_json_loads loads (before_value_of before attribute)).
  set (av := try_json_loads loads (after_value_of after unk attribute)).
  set (nested := recurse bv av bsens asens unk VNone (lvl + 1)).
  destruct (is_dict bv && (truthy bv && negb (is_none av))
            && negb (before_sensitive_bool bsens attribute)
            && negb (after_sensitive_bool asens attribute)
            && negb (after_unknown_bool unk attribute)).
  - exists (indent lvl ++ match attribute with
                          | KStr s => s ++ " = {"
                          | KInt _ => "{"
                          end).
    exists (n <- nested ;; Ok (n ++ indent lvl ++ "}" ++ nl)).
    intros rp forces Hf. rewrite Hf. unfold bind.
    destruct nested as [n|e]; [|reflexivity].
    destruct attribute; rewrite !append_assoc; reflexivity.
  - destruct (is_list bv && (truthy bv && negb (is_none av))
              && negb (before_sensitive_bool bsens attribute)
              && negb (after_sensitive_bool asens attribute)
              && negb (after_unknown_bool unk attribute)).
    + exists (indent lvl ++ str_key attribute ++ " = [").
      exists (n <- nested ;; Ok (n ++ indent lvl ++ "]" ++ nl)).
      intros rp forces Hf. rewrite Hf. unfold bind.
      destruct nested as [n|e]; [|reflexivity].
      rewrite !append_assoc. reflexivity.
    + unfold leaf_line.
      set (br := before_value_rendered _ bv lvl).
      set (ar := after_value_rendered _ _ av lvl).
      destruct (is_none bv && negb (is_none av)); [destruct (is_int_key attribute)|].
      * exists (indent lvl ++ symbol bv av ++ " " ++ ar), (Ok "").
        intros rp forces Hf. rewrite Hf. unfold bind.
        rewrite append_nil_r, !append_assoc. reflexivity.
      * exists (indent lvl ++ symbol bv av ++ " " ++ attributed_rendered attribute
                ++ " = " ++ ar), (Ok "").
        intros rp forces Hf. rewrite Hf. unfold bind.
        rewrite append_nil_r, !append_assoc. reflexivity.
      * exists (indent lvl ++ symbol bv av ++ " " ++ attributed_rendered attribute
                ++ " = " ++ br ++ " -> " ++ ar), (Ok "").
        intros rp forces Hf. rewrite Hf. unfold bind.
        rewrite append_nil_r, !append_assoc. reflexivity.
Qed.

(** C5, as the specification states it: a key of the replacement set whose
    value is unchanged gets no line at the first level, and so no
    annotation. *)
Lemma unchanged_replace_path_not_annotated :
  forces_replacement (VList [VStr "ami"]) 1 (KStr "ami") = Ok true
  /\ compare_values Json.loads 1
       (VDict [("ami", VStr "a")]) (VDict [("ami", VStr "a")])
       [] [] [] (VList [VStr "ami"]) 1
     = Ok "".
Proof. split; reflexivity. Qed.

(** C5, amended: for an attribute whose values differ, the piece is a head,
    the annotation and a tail, where the annotation is
    [ -> (Forces Replacement)] and a newline when the flag is set and a
    newline alone when it is not; the flag is set if and only if the level
    is 1, the replacement set is not empty and the key is in it; at any
    other level the flag is never set, the comparator returns what it
    returns with no replacement set, and the nested call is made with no
    replacement set one level down. *)
Theorem replacement_annotation :
  forall loads recurse before after bsens asens unk lvl attribute,
    differs before after unk attribute = true ->
    (forall rp,
        forces_replacement rp lvl attribute = Ok true
        <-> lvl = 1 /\ truthy rp = true /\ py_in attribute rp = Ok true)
    /\ (exists head tail,
          forall rp forces,
            forces_replacement rp lvl attribute = Ok forces ->
            compare_attribute loads recurse before after bsens asens unk rp lvl
              attribute
            = (rest <- tail ;; Ok (head ++ annotation forces ++ rest)))
    /\ (annotation true = " -> (Forces Replacement)" ++ nl /\ annotation false = nl)
    /\ (forall rp, lvl <> 1 -> forces_replacement rp lvl attribute = Ok false)
    /\ (forall frames b a rp,
          lvl <> 1 ->
          compare_values loads frames b a bsens asens unk rp lvl
          = compare_values loads frames b a bsens asens unk VNone lvl)
    /\ (forall rp other,
          other (parsed_before loads before attribute)
            (parsed_after loads after unk attribute) bsens asens unk VNone (lvl + 1)
          = recurse (parsed_before loads before attribute)
              (parsed_after loads after unk attribute) bsens asens unk VNone
              (lvl + 1) ->
          compare_attribute loads other before after bsens asens unk rp lvl
            attribute
          = compare_attribute loads recurse before after bsens asens unk rp lvl
              attribute).
Proof.
  intros loads recurse before after bsens asens unk lvl attribute Hdiff.
  split; [intros rp; apply forces_replacement_true_iff|].
  split; [apply compare_attribute_shape; exact Hdiff|].
  split; [split; reflexivity|].
  split; [intros rp Hl; apply forces_replacement_nested; exact Hl|].
  split.
  - intros frames b a rp Hl. apply compare_values_nested_rp. exact Hl.
  - intros rp other Hcall. apply compare_attribute_recurse. exact Hcall.
Qed.

Lemma replacement_annotation_witness :
  forces_replacement (VList [VStr "ami"]) 1 (KStr "ami") = Ok true.
Proof.
  apply (proj1 (replacement_annotation Json.loads (compare_values Json.loads 0)
                  (VDict [("ami", VStr "a")]) (VDict [("ami", VStr "b")])
                  [] [] [] 1 (KStr "ami") eq_refl) (VList [VStr "ami"])).
  repeat split.
Defined.

(** The marks of a sensitivity map decide the output: two before maps with
    the same marks give the same result at every level. *)
Lemma compare_values_before_marks loads bsens bsens' asens unk :
  (forall k, marked bsens' k = marked bsens k) ->
  forall frames before after rp lvl,
    compare_values loads frames before after bsens' asens unk rp lvl
    = compare_values loads frames before after bsens asens unk rp lvl.
Proof.
  intros Hmarks. induction frames as [|frames IH]; intros before after rp lvl;
    [reflexivity|].
  rewrite !compare_values_S.
  destruct (sorted_set (keys_of before ++ keys_of after)) as [attributes|e];
    [|reflexivity].
  simpl. apply for_each_ext. intros a _.
  unfold compare_attribute, before_sensitive_bool.
  rewrite Hmarks, !IH. reflexivity.
Qed.

Lemma compare_values_after_marks loads bsens asens asens' unk :
  (forall k, marked asens' k = marked asens k) ->
  forall frames before after rp lvl,
    compare_values loads frames before after bsens asens' unk rp lvl
    = compare_values loads frames before after bsens asens unk rp lvl.
Proof.
  intros Hmarks. induction frames as [|frames IH]; intros before after rp lvl;
    [reflexivity|].
  rewrite !compare_values_S.
  destruct (sorted_set (keys_of before ++ keys_of after)) as [attributes|e];
    [|reflexivity].
  simpl. apply for_each_ext. intros a _.
  unfold compare_attribute, after_sensitive_bool.
  rewrite Hmarks, !IH. reflexivity.
Qed.

(** C10: an iteration makes its nested call with the three maps it was
    given, no replacement set and the next level, so the result of
    [compare_attribute] is fixed by that one call; the result of the
    comparator is the same for two before maps, or two after maps, that
    mark the same keys, whatever else they hold below a key; a sensitivity
    mark stored in a sub-map under the parent key leaves the nested
    attribute as it is, and the same mark under the attribute's own key at
    the top of the map redacts it at the second level; an unknown mark in a
    sub-map under the parent key is not seen either, and the same mark at
    the top of the map gives the placeholder at the second level. *)
Theorem maps_passed_unchanged :
  forall loads before after bsens asens unk rp lvl attribute,
    (forall recurse1 recurse2,
        recurse1 (parsed_before loads before attribute)
          (parsed_after loads after unk attribute) bsens asens unk VNone (lvl + 1)
        = recurse2 (parsed_before loads before attribute)
            (parsed_after loads after unk attribute) bsens asens unk VNone
            (lvl + 1) ->
        compare_attribute loads recurse1 before after bsens asens unk rp lvl
          attribute
        = compare_attribute loads recurse2 before after bsens asens unk rp lvl
            attribute)
    /\ (forall frames bsens',
          (forall k, marked bsens' k = marked bsens k) ->
          compare_values loads frames before after bsens' asens unk rp lvl
          = compare_values loads frames before after bsens asens unk rp lvl)
    /\ (forall frames asens',
          (forall k, marked asens' k = marked asens k) ->
          compare_values loads frames before after bsens asens' unk rp lvl
          = compare_values loads frames before after bsens asens unk rp lvl)
    /\ (forall frames,
          compare_values Json.loads (S (S frames))
            (VDict [("config", VDict [("value", VStr "s3cr3t")])])
            (VDict [("config", VDict [("value", VStr "n3w")])])
            [("config", VDict [("value", VBool true)])]
            [("config", VDict [("value", VBool true)])] [] VNone 1
          = Ok ("   config = {" ++ nl
                ++ "      ~ value = " ++ dq ++ "s3cr3t" ++ dq ++ " -> "
                ++ dq ++ "n3w" ++ dq ++ nl
                ++ "   }" ++ nl))
    /\ (forall frames,
          compare_values Json.loads (S (S frames))
            (VDict [("config", VDict [("value", VStr "s3cr3t")])])
            (VDict [("config", VDict [("value", VStr "n3w")])])
            [("value", VBool true)] [("value", VBool true)] [] VNone 1
          = Ok ("   config = {" ++ nl
                ++ "      ~ value = (Sensitive Data) -> (Sensitive Data)" ++ nl
                ++ "   }" ++ nl))
    /\ (forall frames,
          compare_values Json.loads (S (S frames))
            (VDict [("config", VDict [("id", VStr "x")])])
            (VDict [("config", VDict [])])
            [] [] [("config", VDict [("id", VBool true)])] VNone 1
          = Ok ("   config = {" ++ nl
                ++ "      - id = " ++ dq ++ "x" ++ dq ++ " -> null" ++ nl
                ++ "   }" ++ nl))
    /\ (forall frames,
          compare_values Json.loads (S (S frames))
            (VDict [("config", VDict [("id", VStr "x")])])
            (VDict [("config", VDict [])])
            [] [] [("id", VBool true)] VNone 1
          = Ok ("   config = {" ++ nl
                ++ "      ~ id = " ++ dq ++ "x" ++ dq ++ " -> (Known After Apply)" ++ nl
                ++ "   }" ++ nl)).
Proof.
  intros loads before after bsens asens unk rp lvl attribute.
  split; [intros recurse1 recurse2; apply compare_attribute_recurse|].
  split; [intros frames bsens' Hmarks; apply compare_values_before_marks; exact Hmarks|].
  split; [intros frames asens' Hmarks; apply compare_values_after_marks; exact Hmarks|].
  repeat split; intros frames; reflexivity.
Qed.

(** ** The resource-change classifier *)

Lemma parse_changes_loop_app loads frames pre post text log :
  parse_changes_loop loads frames (pre ++ post) text log
  = match parse_changes_loop loads frames pre text log with
    | (log', Ok text') => parse_changes_loop loads frames post text' log'
    | (log', Raise e) => (log', Raise e)
    end.
Proof.
  revert text log. induction pre as [|rc pre IH]; intros text log; simpl;
    [reflexivity|].
  destruct (parse_change loads frames rc) as [events [block|e]];
    [apply IH|reflexivity].
Qed.

Lemma parse_change_no_op loads frames rc :
  has_action "no-op" (change_ rc) = true ->
  parse_change loads frames rc = ([], Ok "").
Proof. intros H. unfold parse_change. rewrite H. reflexivity. Qed.

Lemma parse_change_read loads frames rc :
  read_only (change_ rc) ->
  parse_change loads frames rc
  = ([LogDebug ("Data resource found [" ++ address rc ++ "]")], Ok "").
Proof.
  intros (Hn & Hc & Hd & Hu & Hr). unfold parse_change.
  rewrite Hn, Hc, Hd, Hu, Hr. reflexivity.
Qed.

Lemma parse_change_unrecognised loads frames rc :
  unrecognised (change_ rc) ->
  parse_change loads frames rc
  = ([LogError ("Failed to parse plan action on resource [" ++ address rc ++ "]")],
     Raise (SystemExit 1)).
Proof.
  intros (Hn & Hc & Hd & Hu & Hr). unfold parse_change.
  rewrite Hn, Hc, Hd, Hu, Hr. reflexivity.
Qed.

(** C9: a record with [no-op] among its actions adds no block and writes
    nothing to the log, so the result is the one without the record; a read
    adds no block, so the returned text is the one without the record; a
    record with none of the known actions writes an error and exits with
    status 1: when the records before it were processed the whole call ends
    with that exit, and in any case the call returns no text, whatever
    records follow. *)
Theorem classifier_outcomes :
  forall loads frames rc pre post,
    (has_action "no-op" (change_ rc) = true ->
     parse_change loads frames rc = ([], Ok "")
     /\ parse_changes loads frames (pre ++ rc :: post)
        = parse_changes loads frames (pre ++ post))
    /\ (read_only (change_ rc) ->
        snd (parse_change loads frames rc) = Ok ""
        /\ snd (parse_changes loads frames (pre ++ rc :: post))
           = snd (parse_changes loads frames (pre ++ post)))
    /\ (unrecognised (change_ rc) ->
        parse_change loads frames rc
        = ([LogError ("Failed to parse plan action on resource ["
                      ++ address rc ++ "]")],
           Raise (SystemExit 1))
        /\ (forall log text,
              parse_changes_loop loads frames pre preamble [] = (log, Ok text) ->
              parse_changes loads frames (pre ++ rc :: post)
              = ((log ++ [LogError ("Failed to parse plan action on resource ["
                                    ++ address rc ++ "]")])%list,
                 Raise (SystemExit 1)))
        /\ (forall text,
              snd (parse_changes loads frames (pre ++ rc :: post)) <> Ok text)).
Proof.
  intros loads frames rc pre post.
  split; [|split].
  - intros Hnoop. pose proof (parse_change_no_op loads frames rc Hnoop) as Hstep.
    split; [exact Hstep|].
    unfold parse_changes. rewrite !parse_changes_loop_app.
    destruct (parse_changes_loop loads frames pre preamble []) as [log [text|e]];
      [|reflexivity].
    simpl. rewrite Hstep. rewrite append_nil_r, app_nil_r. reflexivity.
  - intros Hread. pose proof (parse_change_read loads frames rc Hread) as Hstep.
    split; [rewrite Hstep; reflexivity|].
    unfold parse_changes. rewrite !parse_changes_loop_app.
    destruct (parse_changes_loop loads frames pre preamble []) as [log [text|e]];
      [|reflexivity].
    simpl. rewrite Hstep. rewrite append_nil_r.
    generalize (log ++ [LogDebug ("Data resource found [" ++ address rc ++ "]")])%list.
    generalize log. generalize text. clear.
    induction post as [|r post IH]; intros text log log'; simpl; [reflexivity|].
    destruct (parse_change loads frames r) as [events [block|e]]; simpl;
      [apply IH|reflexivity].
  - intros Hbad. pose proof (parse_change_unrecognised loads frames rc Hbad) as Hstep.
    split; [exact Hstep|]. split.
    + intros log text Hpre. unfold parse_changes.
      rewrite parse_changes_loop_app, Hpre. simpl. rewrite Hstep. reflexivity.
    + intros text. unfold parse_changes. rewrite parse_changes_loop_app.
      destruct (parse_changes_loop loads frames pre preamble []) as [log [t|e]];
        simpl; [rewrite Hstep; simpl|]; discriminate.
Qed.

(** ** The depth of the nested calls *)

Lemma vsize_pos (v : value) : 1 <= vsize v.
Proof. destruct v; simpl; lia. Qed.

Lemma lookup_vsize (k : string) (d : dict) (v : value) :
  lookup k d = Some v -> vsize v <= dict_size d.
Proof.
  unfold dict_size. induction d as [|[k' v'] d IH]; simpl; [discriminate|].
  destruct (String.eqb k k').
  - intros [= ->]. lia.
  - intros H. specialize (IH H). lia.
Qed.

Lemma nth_error_vsize (l : list value) (n : nat) (v : value) :
  nth_error l n = Some v -> vsize v <= list_sum (map vsize l).
Proof.
  revert n. induction l as [|x l IH]; intros [|n]; simpl; try discriminate.
  - intros [= ->]. lia.
  - intros H. specialize (IH _ H). lia.
Qed.

Lemma truthy_container_vsize (v : value) :
  (is_dict v || is_list v) && truthy v = true -> 2 <= vsize v.
Proof.
  destruct v as [| | | |l|d]; simpl; try discriminate.
  - destruct l as [|x l]; simpl; [discriminate|]. pose proof (vsize_pos x). lia.
  - destruct d as [|[k x] d]; simpl; [discriminate|]. pose proof (vsize_pos x). lia.
Qed.

Lemma py_in_raises (k : key) (c : value) :
  raises_only (fun e => e = TypeError) (py_in k c).
Proof. destruct c, k; simpl; auto. Qed.

Lemma forces_replacement_raises (rp : value) (lvl : nat) (a : key) :
  raises_only (fun e => e = TypeError) (forces_replacement rp lvl a).
Proof.
  unfold forces_replacement.
  destruct (truthy rp && Nat.eqb lvl 1); [apply py_in_raises|exact I].
Qed.

Lemma for_each_raises (P : exn -> Prop) (f : key -> result string)
    (l : list key) :
  (forall a, In a l -> raises_only P (f a)) -> raises_only P (for_each f l).
Proof.
  induction l as [|a l IH]; intros H; simpl; [exact I|].
  pose proof (H a (or_introl eq_refl)) as Ha.
  destruct (f a) as [piece|e]; simpl; [|exact Ha].
  assert (Hl : raises_only P (for_each f l)).
  { apply IH. intros b Hb. apply H. right. exact Hb. }
  destruct (for_each f l); simpl; [exact I|exact Hl].
Qed.

Section Frames.

Variable loads : string -> option value.

(** A decoded document is no larger than its text. *)
Hypothesis loads_small :
  forall s v, loads s = Some v -> vsize v <= String.length s.

Lemma try_json_loads_vsize (v : value) :
  vsize (try_json_loads loads v) <= vsize v.
Proof.
  destruct v; simpl; try lia.
  destruct (loads s) as [p|] eqn:Hp; simpl; [|lia].
  pose proof (loads_small _ _ Hp). lia.
Qed.

(** The value a nested call is made on is smaller than [before]. *)
Lemma parsed_before_smaller (before : value) (attribute : key) :
  (is_dict (parsed_before loads before attribute)
   || is_list (parsed_before loads before attribute))
  && truthy (parsed_before loads before attribute) = true ->
  vsize (parsed_before loads before attribute) < vsize before.
Proof.
  unfold parsed_before, before_value_of. intros Hc.
  destruct (subscript before attribute) as [raw|] eqn:Hsub;
    [|simpl in Hc; discriminate].
  pose proof (try_json_loads_vsize raw) as Hle.
  destruct before as [| | |s|l|d], attribute as [k|n]; simpl in Hsub;
    try discriminate.
  - unfold char_at in Hsub. destruct (String.get n s) as [c|] eqn:Hget;
      [|discriminate]. injection Hsub as <-.
    simpl in Hc |- *. destruct (loads (String c "")) as [p|] eqn:Hp.
    + apply truthy_container_vsize in Hc.
      pose proof (loads_small _ _ Hp) as Hs. simpl in Hs. lia.
    + simpl in Hc. discriminate Hc.
  - apply nth_error_vsize in Hsub. simpl. lia.
  - apply lookup_vsize in Hsub. unfold dict_size in Hsub. simpl. lia.
Qed.

Lemma compare_attribute_raises recurse before after bsens asens unk rp lvl a :
  ((is_dict (parsed_before loads before a) || is_list (parsed_before loads before a))
   && truthy (parsed_before loads before a) = true ->
   raises_only (fun e => e = TypeError)
     (recurse (parsed_before loads before a) (parsed_after loads after unk a)
        bsens asens unk VNone (lvl + 1))) ->
  raises_only (fun e => e = TypeError)
    (compare_attribute loads recurse before after bsens asens unk rp lvl a).
Proof.
  intros Hrec. unfold compare_attribute.
  fold (parsed_before loads before a). fold (parsed_after loads after unk a).
  destruct (py_eq _ _); [exact I|].
  pose proof (forces_replacement_raises rp lvl a) as Hf.
  destruct (forces_replacement rp lvl a) as [forces|e]; simpl; [|exact Hf].
  destruct (is_dict (parsed_before loads before a)),
    (is_list (parsed_before loads before a)),
    (truthy (parsed_before loads before a)),
    (is_none (parsed_after loads after unk a)),
    (before_sensitive_bool bsens a),
    (after_sensitive_bool asens a),
    (after_unknown_bool unk a);
    simpl in *; try exact I;
    (specialize (Hrec eq_refl); destruct (recurse _ _ _ _ _ _ _); simpl; auto).
Qed.

(** With as many frames as the size of [before] the comparator returns a
    string or raises TypeError: the limit of the interpreter is not reached,
    and the comparator never exits. *)
Lemma compare_values_enough_frames :
  forall frames before after bsens asens unk rp lvl,
    vsize before <= frames ->
    raises_only (fun e => e = TypeError)
      (compare_values loads frames before after bsens asens unk rp lvl).
Proof.
  induction frames as [|frames IH]; intros before after bsens asens unk rp lvl Hsize.
  - pose proof (vsize_pos before). lia.
  - rewrite compare_values_S. unfold sorted_set.
    destruct (existsb is_int_key _ && existsb is_str_key _); [reflexivity|].
    cbn [bind]. apply for_each_raises. intros a _.
    apply compare_attribute_raises. intros Hc.
    apply IH. pose proof (parsed_before_smaller before a Hc). lia.
Qed.

End Frames.

(** A result other than RecursionError is the same with more frames. *)
Lemma for_each_stable (f g : key -> result string) (l : list key) :
  (forall a r, f a = r -> r <> Raise RecursionError -> g a = r) ->
  forall r, for_each f l = r -> r <> Raise RecursionError -> for_each g l = r.
Proof.
  intros Hfg. induction l as [|a l IH]; intros r Hr Hne; simpl in *; [exact Hr|].
  destruct (f a) as [piece|e] eqn:Hfa.
  - rewrite (Hfg a (Ok piece) Hfa) by discriminate. simpl in *.
    destruct (for_each f l) as [others|e] eqn:Hl.
    + rewrite (IH (Ok others) eq_refl) by discriminate. exact Hr.
    + simpl in Hr. subst r. rewrite (IH (Raise e) eq_refl Hne). reflexivity.
  - simpl in Hr. subst r. rewrite (Hfg a (Raise e) Hfa Hne). reflexivity.
Qed.

Lemma compare_attribute_stable loads
    (recurse1 recurse2 :
       value -> value -> dict -> dict -> dict -> value -> nat -> result string)
    before after bsens asens unk rp lvl a :
  (forall b c r,
      recurse1 b c bsens asens unk VNone (lvl + 1) = r ->
      r <> Raise RecursionError ->
      recurse2 b c bsens asens unk VNone (lvl + 1) = r) ->
  forall r,
    compare_attribute loads recurse1 before after bsens asens unk rp lvl a = r ->
    r <> Raise RecursionError ->
    compare_attribute loads recurse2 before after bsens asens unk rp lvl a = r.
Proof.
  intros Hrec r Hr Hne. revert Hr. unfold compare_attribute.
  fold (parsed_before loads before a). fold (parsed_after loads after unk a).
  destruct (py_eq _ _); [intros Hr; exact Hr|].
  destruct (forces_replacement rp lvl a) as [forces|e]; simpl; [|intros Hr; exact Hr].
  destruct (is_dict (parsed_before loads before a)),
    (is_list (parsed_before loads before a)),
    (truthy (parsed_before loads before a)),
    (is_none (parsed_after loads after unk a)),
    (before_sensitive_bool bsens a),
    (after_sensitive_bool asens a),
    (after_unknown_bool unk a);
    simpl; try (intros Hr; exact Hr);
    (destruct (recurse1 (parsed_before loads before a)
                 (parsed_after loads after unk a) bsens asens unk VNone (lvl + 1))
       as [text|e] eqn:H1; simpl; intros Hr;
     [ rewrite (Hrec _ _ (Ok text) H1) by discriminate; exact Hr
     | subst r; rewrite (Hrec _ _ (Raise e) H1 Hne); reflexivity ]).
Qed.

Lemma compare_values_more_frames loads :
  forall frames before after bsens asens unk rp lvl r,
    compare_values loads frames before after bsens asens unk rp lvl = r ->
    r <> Raise RecursionError ->
    compare_values loads (S frames) before after bsens asens unk rp lvl = r.
Proof.
  induction frames as [|frames IH];
    intros before after bsens asens unk rp lvl r Hr Hne.
  - simpl in Hr. subst r. contradiction Hne. reflexivity.
  - rewrite compare_values_S in Hr. rewrite compare_values_S.
    destruct (sorted_set (keys_of before ++ keys_of after)) as [attributes|e];
      [|exact Hr].
    cbn [bind] in *. revert r Hr Hne. apply for_each_stable.
    intros a r. apply compare_attribute_stable.
    intros b c r'. apply IH.
Qed.

Lemma compare_values_frames_le loads frames frames' before after bsens asens unk
    rp lvl r :
  frames <= frames' ->
  compare_values loads frames before after bsens asens unk rp lvl = r ->
  r <> Raise RecursionError ->
  compare_values loads frames' before after bsens asens unk rp lvl = r.
Proof.
  intros Hle Hr Hne. induction Hle as [|m Hle IH]; [exact Hr|].
  apply compare_values_more_frames; assumption.
Qed.

(** ** The reference decoder returns documents no larger than their text *)

Module JsonFacts.

Import Json.

Lemma skip_ws_length (s : string) :
  String.length (skip_ws s) <= String.length s.
Proof.
  induction s as [|c s IH]; simpl; [lia|].
  destruct (is_ws c); simpl; lia.
Qed.

Lemma scan_digits_length (s : string) :
  forall acc n rest,
    scan_digits acc s = (n, rest) -> String.length rest <= String.length s.
Proof.
  induction s as [|c s IH]; simpl; intros acc n rest H.
  - injection H as _ <-. simpl. lia.
  - destruct (is_digit c).
    + apply IH in H. lia.
    + injection H as _ <-. simpl. lia.
Qed.

Lemma scan_natural_length (s : string) (n : Z) (rest : string) :
  scan_natural s = Some (n, rest) -> String.length rest < String.length s.
Proof.
  unfold scan_natural. destruct s as [|c s]; [discriminate|].
  destruct (Ascii.eqb c "0").
  - destruct (starts_fraction s); [discriminate|].
    intros [= _ <-]. simpl. lia.
  - destruct (is_digit c) eqn:Hd; [|discriminate].
    simpl scan_digits. rewrite Hd.
    destruct (scan_digits _ s) as [m r] eqn:Hs.
    destruct (starts_fraction r); [discriminate|].
    intros [= _ <-]. apply scan_digits_length in Hs. simpl. lia.
Qed.

Lemma scan_string_length_bounded (n : nat) :
  forall s body rest,
    String.length s <= n ->
    scan_string s = Some (body, rest) ->
    String.length body + String.length rest < String.length s.
Proof.
  induction n as [|n IH]; intros s body rest Hn H;
    destruct s as [|c s]; simpl in H, Hn; try discriminate; [lia|].
  destruct (Ascii.eqb c "034").
  - injection H as <- <-. simpl. lia.
  - destruct (Ascii.eqb c "\").
    + destruct s as [|e s]; [discriminate|].
      destruct (unescape e); [|discriminate].
      destruct (scan_string s) as [[b r]|] eqn:Hs; [|discriminate].
      injection H as <- <-. apply IH in Hs; simpl in *; lia.
    + destruct (nat_of_ascii c <? 32)%nat; [discriminate|].
      destruct (scan_string s) as [[b r]|] eqn:Hs; [|discriminate].
      injection H as <- <-. apply IH in Hs; simpl in *; lia.
Qed.

Lemma scan_string_length (s body rest : string) :
  scan_string s = Some (body, rest) ->
  String.length body + String.length rest < String.length s.
Proof. apply (scan_string_length_bounded (String.length s)). lia. Qed.

Lemma prefix_drop (p : string) :
  forall s,
    prefix p s = true ->
    String.length (drop (String.length p) s) + String.length p = String.length s.
Proof.
  induction p as [|c p IH]; intros s H; simpl.
  - destruct s; simpl; lia.
  - destruct s as [|c' s]; simpl in H; [discriminate|].
    destruct (ascii_dec c c'); [|discriminate].
    apply IH in H. simpl. lia.
Qed.

Lemma dict_set_size (k : string) (v : value) (d : dict) :
  dict_size (dict_set k v d) <= dict_size d + vsize v.
Proof.
  unfold dict_size. induction d as [|[k' v'] d IH]; simpl; [lia|].
  destruct (String.eqb k k'); simpl; lia.
Qed.

Lemma dict_of_pairs_size (pairs : dict) :
  dict_size (dict_of_pairs pairs) <= dict_size pairs.
Proof.
  unfold dict_of_pairs.
  assert (H : forall acc,
    dict_size (fold_left (fun d kv => dict_set (fst kv) (snd kv) d) pairs acc)
    <= dict_size acc + dict_size pairs).
  { induction pairs as [|[k v] pairs IH]; intros acc; simpl.
    - unfold dict_size at 3. simpl. lia.
    - specialize (IH (dict_set k v acc)). pose proof (dict_set_size k v acc).
      unfold dict_size at 3. simpl. fold (dict_size pairs). lia. }
  apply (H []).
Qed.

(** Each scanner leaves at least as much text unread as the size of what it
    returns lets it. *)
Lemma scan_size (fuel : nat) :
  (forall s v rest, scan_once fuel s = Some (v, rest) ->
     vsize v + String.length rest <= String.length s)
  /\ (forall s items rest, scan_elements fuel s = Some (items, rest) ->
        list_sum (map vsize items) + String.length rest < String.length s)
  /\ (forall s pairs rest, scan_members fuel s = Some (pairs, rest) ->
        dict_size pairs + String.length rest < String.length s).
Proof.
  induction fuel as [|fuel (IHo & IHe & IHm)];
    [repeat split; intros; discriminate|].
  repeat split.
  - intros s v rest H. cbn [scan_once] in H.
    destruct s as [|c s']; [discriminate|].
    destruct (Ascii.eqb c "034").
    { destruct (scan_string s') as [[body r]|] eqn:Hs; [|discriminate].
      injection H as <- <-. apply scan_string_length in Hs. simpl. lia. }
    destruct (Ascii.eqb c "{").
    { pose proof (skip_ws_length s') as Hw.
      destruct (skip_ws s') as [|c1 s1]; [discriminate|].
      destruct (Ascii.eqb c1 "}").
      - injection H as <- <-. simpl in *. lia.
      - destruct (scan_members fuel (String c1 s1)) as [[pairs r]|] eqn:Hm;
          [|discriminate].
        injection H as <- <-. apply IHm in Hm.
        pose proof (dict_of_pairs_size pairs). unfold dict_size in *.
        simpl in *. lia. }
    destruct (Ascii.eqb c "[").
    { pose proof (skip_ws_length s') as Hw.
      destruct (skip_ws s') as [|c1 s1]; [discriminate|].
      destruct (Ascii.eqb c1 "]").
      - injection H as <- <-. simpl in *. lia.
      - destruct (scan_elements fuel (String c1 s1)) as [[items r]|] eqn:He;
          [|discriminate].
        injection H as <- <-. apply IHe in He. simpl in *. lia. }
    destruct (prefix "null" (String c s')) eqn:Hnull.
    { injection H as <- <-. apply prefix_drop in Hnull. simpl in *. lia. }
    destruct (prefix "true" (String c s')) eqn:Htrue.
    { injection H as <- <-. apply prefix_drop in Htrue. simpl in *. lia. }
    destruct (prefix "false" (String c s')) eqn:Hfalse.
    { injection H as <- <-. apply prefix_drop in Hfalse. simpl in *. lia. }
    destruct (Ascii.eqb c "-").
    { destruct (scan_natural s') as [[n r]|] eqn:Hn; [|discriminate].
      injection H as <- <-. apply scan_natural_length in Hn. simpl. lia. }
    destruct (scan_natural (String c s')) as [[n r]|] eqn:Hn; [|discriminate].
    injection H as <- <-. apply scan_natural_length in Hn. simpl in *. lia.
  - intros s items rest H. cbn [scan_elements] in H.
    destruct (scan_once fuel s) as [[v r]|] eqn:Ho; [|discriminate].
    apply IHo in Ho. pose proof (skip_ws_length r) as Hw.
    destruct (skip_ws r) as [|c s1]; [discriminate|].
    destruct (Ascii.eqb c "]").
    + injection H as <- <-. simpl in *. lia.
    + destruct (Ascii.eqb c ","); [|discriminate].
      destruct (scan_elements fuel (skip_ws s1)) as [[more r']|] eqn:He;
        [|discriminate].
      injection H as <- <-. apply IHe in He.
      pose proof (skip_ws_length s1). simpl in *. lia.
  - intros s pairs rest H. cbn [scan_members] in H.
    destruct s as [|q s0]; [discriminate|].
    destruct (Ascii.eqb q "034"); [|discriminate].
    destruct (scan_string s0) as [[k r0]|] eqn:Hk; [|discriminate].
    apply scan_string_length in Hk. pose proof (skip_ws_length r0) as Hw0.
    destruct (skip_ws r0) as [|colon s1]; [discriminate|].
    destruct (Ascii.eqb colon ":"); [|discriminate].
    destruct (scan_once fuel (skip_ws s1)) as [[v r]|] eqn:Ho; [|discriminate].
    apply IHo in Ho. pose proof (skip_ws_length s1) as Hw1.
    pose proof (skip_ws_length r) as Hw.
    destruct (skip_ws r) as [|c s2]; [discriminate|].
    destruct (Ascii.eqb c "}").
    + injection H as <- <-. unfold dict_size. simpl in *. lia.
    + destruct (Ascii.eqb c ","); [|discriminate].
      destruct (scan_members fuel (skip_ws s2)) as [[more r']|] eqn:Hm;
        [|discriminate].
      injection H as <- <-. apply IHm in Hm.
      pose proof (skip_ws_length s2). unfold dict_size in *. simpl in *. lia.
Qed.

Lemma loads_size (s : string) (v : value) :
  loads s = Some v -> vsize v <= String.length s.
Proof.
  unfold loads. intros H.
  destruct (scan_once _ (skip_ws s)) as [[v' rest]|] eqn:Ho; [|discriminate].
  destruct (skip_ws rest); [|discriminate].
  injection H as <-. apply (proj1 (scan_size _)) in Ho.
  pose proof (skip_ws_length s). lia.
Qed.

End JsonFacts.



(** * Properties of the rest of the module *)

Lemma ascii_compare_refl (c : ascii) : Ascii.compare c c = Eq.
Proof. unfold Ascii.compare. apply N.compare_refl. Qed.

Lemma ascii_compare_lt_trans (a b c : ascii) :
  Ascii.compare a b = Lt -> Ascii.compare b c = Lt -> Ascii.compare a c = Lt.
Proof.
  unfold Ascii.compare. rewrite !N.compare_lt_iff. apply N.lt_trans.
Qed.

Lemma string_compare_lt_trans : forall s1 s2 s3,
  String.compare s1 s2 = Lt -> String.compare s2 s3 = Lt ->
  String.compare s1 s3 = Lt.
Proof.
  induction s1 as [|c1 s1 IH]; intros [|c2 s2] [|c3 s3]; simpl;
    try discriminate; try reflexivity.
  destruct (Ascii.compare c1 c2) eqn:H12; try discriminate;
    destruct (Ascii.compare c2 c3) eqn:H23; try discriminate.
  - apply Ascii.compare_eq_iff in H12, H23. subst.
    rewrite ascii_compare_refl. apply IH.
  - apply Ascii.compare_eq_iff in H12. subst. rewrite H23. reflexivity.
  - apply Ascii.compare_eq_iff in H23. subst. rewrite H12. reflexivity.
  - rewrite (ascii_compare_lt_trans _ _ _ H12 H23). reflexivity.
Qed.

Lemma string_compare_refl s : String.compare s s = Eq.
Proof.
  induction s as [|c s IH]; simpl; [reflexivity|].
  rewrite ascii_compare_refl. exact IH.
Qed.

Lemma string_leb_trans s1 s2 s3 :
  String.leb s1 s2 = true -> String.leb s2 s3 = true -> String.leb s1 s3 = true.
Proof.
  unfold String.leb.
  destruct (String.compare s1 s2) eqn:H12; try discriminate;
    destruct (String.compare s2 s3) eqn:H23; try discriminate; intros _ _.
  - apply String.compare_eq_iff in H12, H23. subst.
    rewrite string_compare_refl. reflexivity.
  - apply String.compare_eq_iff in H12. subst. rewrite H23. reflexivity.
  - apply String.compare_eq_iff in H23. subst. rewrite H12. reflexivity.
  - rewrite (string_compare_lt_trans _ _ _ H12 H23). reflexivity.
Qed.

Lemma key_eqb_eq a b : key_eqb a b = true <-> a = b.
Proof.
  destruct a as [x|x], b as [y|y]; simpl; split; try discriminate.
  - intros H. apply String.eqb_eq in H. congruence.
  - intros [= ->]. apply String.eqb_refl.
  - intros H. apply Nat.eqb_eq in H. congruence.
  - intros [= ->]. apply Nat.eqb_refl.
Qed.

Lemma key_leb_total a b : key_leb a b = true \/ key_leb b a = true.
Proof.
  destruct a as [x|x], b as [y|y]; simpl; auto.
  - apply String.leb_total.
  - destruct (Nat.leb_spec x y); [left; reflexivity|right].
    apply Nat.leb_le. lia.
Qed.

Lemma key_leb_antisym a b : key_leb a b = true -> key_leb b a = true -> a = b.
Proof.
  destruct a as [x|x], b as [y|y]; simpl; try discriminate.
  - intros H1 H2. f_equal. apply String.leb_antisym; assumption.
  - intros H1 H2. apply Nat.leb_le in H1, H2. f_equal. lia.
Qed.

Lemma key_leb_trans a b c :
  key_leb a b = true -> key_leb b c = true -> key_leb a c = true.
Proof.
  destruct a as [x|x], b as [y|y], c as [z|z]; simpl; try discriminate;
    try reflexivity.
  - apply string_leb_trans.
  - intros H1 H2. apply Nat.leb_le in H1, H2. apply Nat.leb_le. lia.
Qed.

Lemma key_lt_trans a b c : key_lt a b -> key_lt b c -> key_lt a c.
Proof.
  intros [Hab Nab] [Hbc Nbc]. split.
  - apply (key_leb_trans a b c); assumption.
  - intros ->. apply Nab. apply key_leb_antisym; assumption.
Qed.

Lemma insert_key_In k ks x : In x (insert_key k ks) <-> x = k \/ In x ks.
Proof.
  induction ks as [|k' ks IH]; simpl.
  - split; intros [H|H]; auto; contradiction.
  - destruct (key_eqb k k') eqn:Heq.
    + apply key_eqb_eq in Heq. subst k'. simpl. split; [auto|].
      intros [->|H]; auto.
    + destruct (key_leb k k'); simpl.
      * split; intros [H|H]; auto.
      * rewrite IH. split; intros H; intuition auto.
Qed.

Lemma insert_key_sorted k ks :
  StronglySorted key_lt ks -> StronglySorted key_lt (insert_key k ks).
Proof.
  induction ks as [|k' ks IH]; simpl; intros Hs.
  - repeat constructor.
  - apply StronglySorted_inv in Hs as [Hs Hall].
    destruct (key_eqb k k') eqn:Heq; [constructor; assumption|].
    assert (Hne : k <> k').
    { intros E. apply key_eqb_eq in E. congruence. }
    destruct (key_leb k k') eqn:Hle.
    + constructor; [constructor; assumption|].
      constructor; [split; assumption|].
      rewrite Forall_forall in Hall |- *. intros x Hx.
      apply (key_lt_trans k k' x); [split; assumption|apply Hall; exact Hx].
    + assert (Hlt : key_lt k' k).
      { split; [|congruence].
        destruct (key_leb_total k k') as [H|H]; [congruence|exact H]. }
      constructor; [apply IH; exact Hs|].
      rewrite Forall_forall in Hall |- *. intros x Hx.
      apply insert_key_In in Hx as [->|Hx]; [exact Hlt|apply Hall; exact Hx].
Qed.

Lemma sorted_keys_NoDup l : StronglySorted key_lt l -> NoDup l.
Proof.
  induction 1 as [|a l Hs IH Hall]; constructor; [|exact IH].
  intros Hin. rewrite Forall_forall in Hall. destruct (Hall a Hin) as [_ Hne].
  apply Hne. reflexivity.
Qed.

Lemma fold_insert_key_In ks k :
  In k (fold_right insert_key [] ks) <-> In k ks.
Proof.
  induction ks as [|k' ks IH]; simpl; [reflexivity|].
  rewrite insert_key_In, IH. split; intros [H|H]; auto; left; congruence.
Qed.

Lemma fold_insert_key_sorted ks :
  StronglySorted key_lt (fold_right insert_key [] ks).
Proof.
  induction ks as [|k ks IH]; simpl; [constructor|apply insert_key_sorted, IH].
Qed.

Lemma sorted_set_spec ks :
  (forall attributes,
      sorted_set ks = Ok attributes ->
      StronglySorted key_lt attributes
      /\ NoDup attributes
      /\ (forall k, In k attributes <-> In k ks))
  /\ (forall e, sorted_set ks = Raise e ->
        e = TypeError
        /\ (exists n s, In (KInt n) ks /\ In (KStr s) ks))
  /\ ((exists n s, In (KInt n) ks /\ In (KStr s) ks) ->
      sorted_set ks = Raise TypeError).
Proof.
  unfold sorted_set.
  pose proof (fold_insert_key_In ks) as Hin.
  pose proof (fold_insert_key_sorted ks) as Hsorted.
  assert (Hmixed : existsb is_int_key ks && existsb is_str_key ks = true
                   <-> exists n s, In (KInt n) ks /\ In (KStr s) ks).
  { rewrite andb_true_iff, !existsb_exists. split.
    - intros [[[s|n] [Hi Ht]] [[s'|n'] [Hs Ht']]]; try discriminate.
      exists n, s'. split; assumption.
    - intros (n & s & Hn & Hs). split; [exists (KInt n)|exists (KStr s)];
        split; auto. }
  destruct (existsb is_int_key ks && existsb is_str_key ks).
  - split; [intros attributes H; discriminate H|]. split.
    + intros e H. injection H as <-. split; [reflexivity|].
      apply Hmixed. reflexivity.
    + intros _. reflexivity.
  - split; [|split].
    + intros attributes H. injection H as <-.
      split; [exact Hsorted|]. split; [apply sorted_keys_NoDup, Hsorted|exact Hin].
    + intros e H. discriminate H.
    + intros Hex. apply Hmixed in Hex. discriminate Hex.
Qed.

Lemma value_induction (P : value -> Prop) :
  P VNone -> (forall b, P (VBool b)) -> (forall z, P (VInt z)) ->
  (forall s, P (VStr s)) ->
  (forall l, Forall P l -> P (VList l)) ->
  (forall d, Forall (fun kv => P (snd kv)) d -> P (VDict d)) ->
  forall v, P v.
Proof.
  intros HN HB HI HS HL HD. fix F 1. intros [| b | z | s | l | d].
  - exact HN.
  - apply HB.
  - apply HI.
  - apply HS.
  - apply HL. induction l as [|x l IH]; constructor; [apply F|exact IH].
  - apply HD. induction d as [|[k x] d IH]; constructor; [apply F|exact IH].
Qed.

Lemma unique_keys_NoDup d : unique_keys d = true -> NoDup (map fst d).
Proof.
  induction d as [|[k v] d IH]; simpl; intros H; constructor.
  - apply andb_prop in H as [H _]. apply negb_true_iff in H.
    intros Hin. assert (existsb (String.eqb k) (map fst d) = true) as E.
    { apply existsb_exists. exists k. split; [exact Hin|apply String.eqb_refl]. }
    congruence.
  - apply IH. apply andb_prop in H as [_ H]. exact H.
Qed.

Lemma lookup_In k d v : lookup k d = Some v -> In (k, v) d.
Proof.
  induction d as [|[k' v'] d IH]; simpl; [discriminate|].
  destruct (String.eqb_spec k k') as [->|Hne].
  - intros [= ->]. left. reflexivity.
  - intros H. right. apply IH. exact H.
Qed.

Lemma lookup_keys k d : In k (map fst d) -> exists v, lookup k d = Some v.
Proof.
  induction d as [|[k' v'] d IH]; simpl; [contradiction|].
  destruct (String.eqb_spec k k') as [->|Hne].
  - intros _. eexists. reflexivity.
  - intros [H|H]; [congruence|]. apply IH. exact H.
Qed.

Lemma lookup_unique k v d :
  unique_keys d = true -> In (k, v) d -> lookup k d = Some v.
Proof.
  induction d as [|[k' v'] d IH]; simpl; [contradiction|].
  intros H [Heq|Hin].
  - injection Heq as -> ->. rewrite String.eqb_refl. reflexivity.
  - apply andb_prop in H as [Hk Hu]. apply negb_true_iff in Hk.
    destruct (String.eqb_spec k k') as [->|Hne].
    + exfalso. assert (existsb (String.eqb k') (map fst d) = true) as E.
      { apply existsb_exists. exists k'. split; [|apply String.eqb_refl].
        apply (in_map fst) in Hin. exact Hin. }
      congruence.
    + apply IH; assumption.
Qed.

Lemma py_eq_refl : forall v, well_formed v = true -> py_eq v v = true.
Proof.
  induction v as [| b | z | s | l IH | d IH] using value_induction; simpl; intros Hwf.
  - reflexivity.
  - apply eqb_reflx.
  - apply Z.eqb_refl.
  - apply String.eqb_refl.
  - induction l as [|x l IHl]; [reflexivity|].
    simpl in Hwf. apply andb_prop in Hwf as [Hx Hl].
    inversion IH as [|? ? Px Pl]; subst.
    rewrite (Px Hx). simpl. apply IHl; assumption.
  - apply andb_prop in Hwf as [Hu Hall].
    rewrite Nat.eqb_refl. simpl. apply forallb_forall. intros [k v] Hin.
    simpl. rewrite (lookup_unique k v d Hu Hin).
    rewrite Forall_forall in IH. apply (IH (k, v) Hin).
    rewrite forallb_forall in Hall. apply (Hall (k, v) Hin).
Qed.

(** ** The attributes of the loop *)

Lemma keys_of_subscript (v : value) (k : key) :
  In k (keys_of v) -> exists x, subscript v k = Some x.
Proof.
  destruct v as [| | | |l|d]; simpl; try contradiction.
  - intros Hin. apply in_map_iff in Hin as (n & <- & Hn).
    apply in_seq in Hn. simpl.
    destruct (nth_error l n) as [x|] eqn:Hx; [exists x; reflexivity|].
    apply nth_error_None in Hx. lia.
  - intros Hin. apply in_map_iff in Hin as ([k' x] & <- & Hkv). simpl.
    apply lookup_keys. apply (in_map fst) in Hkv. exact Hkv.
Qed.

(** X3: when [sorted(list(set(...)))] of the keys of both sides succeeds, the
    loop of [compare_values] visits the attributes in strictly increasing
    order, each one once, they are exactly the keys and indices of [before]
    and of [after], and every one of them subscripts at least one side. *)
Theorem loop_visits_each_key_once :
  forall before after attributes,
    sorted_set (keys_of before ++ keys_of after) = Ok attributes ->
    StronglySorted key_lt attributes
    /\ NoDup attributes
    /\ (forall k, In k attributes <-> In k (keys_of before) \/ In k (keys_of after))
    /\ (forall k, In k attributes ->
          (exists x, subscript before k = Some x)
          \/ (exists x, subscript after k = Some x)).
Proof.
  intros before after attributes H.
  destruct (proj1 (sorted_set_spec _) _ H) as (Hs & Hn & Hin).
  split; [exact Hs|]. split; [exact Hn|].
  assert (Hin' : forall k, In k attributes
                           <-> In k (keys_of before) \/ In k (keys_of after)).
  { intros k. rewrite Hin. apply in_app_iff. }
  split; [exact Hin'|].
  intros k Hk. apply Hin' in Hk as [Hk|Hk]; [left|right];
    apply keys_of_subscript; exact Hk.
Qed.

Lemma loop_visits_each_key_once_witness :
  NoDup [KStr "a"; KStr "b"; KStr "c"].
Proof.
  apply (loop_visits_each_key_once
           (VDict [("b", VInt 1); ("a", VInt 2)])
           (VDict [("c", VInt 1); ("b", VInt 2)])
           [KStr "a"; KStr "b"; KStr "c"] eq_refl).
Defined.

(** ** Equal trees *)

Lemma for_each_all_empty (f : key -> result string) (l : list key) :
  (forall a, In a l -> f a = Ok "") -> for_each f l = Ok "".
Proof.
  induction l as [|a l IH]; intros H; simpl; [reflexivity|].
  rewrite (H a (or_introl eq_refl)). simpl.
  rewrite IH; [reflexivity|]. intros b Hb. apply H. right. exact Hb.
Qed.

Lemma dict_keys_no_int (d : dict) :
  existsb is_int_key (map (fun kv => KStr (fst kv)) d) = false.
Proof. induction d as [|kv d IH]; simpl; [reflexivity|exact IH]. Qed.

Lemma list_keys_no_str (n len : nat) :
  existsb is_str_key (map KInt (seq n len)) = false.
Proof. revert n. induction len as [|len IH]; intros n; simpl; [reflexivity|apply IH]. Qed.

Lemma py_eq_lists (xs ys : list value) :
  py_eq (VList xs) (VList ys) = true ->
  List.length xs = List.length ys
  /\ forall n x, nth_error xs n = Some x ->
       exists y, nth_error ys n = Some y /\ py_eq x y = true.
Proof.
  revert ys. induction xs as [|x xs IH]; intros [|y ys] H; simpl in H;
    try discriminate.
  - split; [reflexivity|]. intros [|n] z Hz; discriminate Hz.
  - apply andb_prop in H as [Hxy Hrest]. destruct (IH ys Hrest) as [Hlen Hnth].
    split; [simpl; congruence|].
    intros [|n] z Hz; simpl in Hz.
    + injection Hz as <-. exists y. split; [reflexivity|exact Hxy].
    + apply Hnth. exact Hz.
Qed.

Lemma py_eq_dicts (xs ys : dict) :
  py_eq (VDict xs) (VDict ys) = true ->
  List.length xs = List.length ys
  /\ forall k x, In (k, x) xs ->
       exists y, lookup k ys = Some y /\ py_eq x y = true.
Proof.
  simpl. intros H. apply andb_prop in H as [Hlen Hall].
  split; [apply Nat.eqb_eq; exact Hlen|].
  intros k x Hin. rewrite forallb_forall in Hall.
  specialize (Hall (k, x) Hin). simpl in Hall.
  destruct (lookup k ys) as [y|]; [exists y; split; [reflexivity|exact Hall]|discriminate].
Qed.

Lemma equal_attribute_values (before after : value) (unk : dict) (a : key) :
  unique_top before = true ->
  py_eq before after = true ->
  In a (keys_of before ++ keys_of after) ->
  py_eq (before_value_of before a) (after_value_of after unk a) = true.
Proof.
  intros Hu Heq Hin.
  destruct before as [| | | |xs|xs], after as [| | | |ys|ys];
    try discriminate Heq; try (simpl in Hin; contradiction).
  - destruct (py_eq_lists xs ys Heq) as [Hlen Hnth].
    assert (Hn : exists n, a = KInt n /\ n < List.length xs).
    { simpl in Hin. apply in_app_iff in Hin as [Hin|Hin];
        apply in_map_iff in Hin as (n & <- & Hn); apply in_seq in Hn;
        exists n; split; try reflexivity; lia. }
    destruct Hn as (n & -> & Hn).
    unfold before_value_of, after_value_of. simpl.
    destruct (nth_error xs n) as [x|] eqn:Hx;
      [|apply nth_error_None in Hx; lia].
    destruct (Hnth n x Hx) as (y & Hy & Hxy). rewrite Hy. exact Hxy.
  - destruct (py_eq_dicts xs ys Heq) as [Hlen Hall].
    assert (Hincl : incl (map fst xs) (map fst ys)).
    { intros k Hk. apply in_map_iff in Hk as ([k' x] & <- & Hkx). simpl.
      destruct (Hall k' x Hkx) as (y & Hy & _).
      apply lookup_In in Hy. apply (in_map fst) in Hy. exact Hy. }
    assert (Hback : incl (map fst ys) (map fst xs)).
    { apply NoDup_length_incl; [apply unique_keys_NoDup; exact Hu| |exact Hincl].
      rewrite !length_map. lia. }
    assert (Hk : exists k, a = KStr k /\ In k (map fst xs)).
    { simpl in Hin. apply in_app_iff in Hin as [Hin|Hin];
        apply in_map_iff in Hin as ([k x] & <- & Hkx); exists k;
        (split; [reflexivity|]); apply (in_map fst) in Hkx; simpl in Hkx;
        [exact Hkx|apply Hback; exact Hkx]. }
    destruct Hk as (k & -> & Hk).
    unfold before_value_of, after_value_of. simpl.
    destruct (lookup_keys k xs Hk) as [x Hx]. rewrite Hx.
    destruct (Hall k x (lookup_In _ _ _ Hx)) as (y & Hy & Hxy).
    rewrite Hy. exact Hxy.
Qed.

Lemma equal_trees_keys (before after : value) :
  py_eq before after = true ->
  exists attributes, sorted_set (keys_of before ++ keys_of after) = Ok attributes.
Proof.
  intros Heq. unfold sorted_set.
  destruct before as [| | | |xs|xs], after as [| | | |ys|ys];
    try discriminate Heq; simpl keys_of; rewrite ?app_nil_r;
    try (eexists; reflexivity).
  - rewrite (existsb_app is_str_key), !list_keys_no_str, andb_false_r.
    eexists. reflexivity.
  - rewrite (existsb_app is_int_key), !dict_keys_no_int.
    eexists. reflexivity.
Qed.

Lemma equal_trees_empty loads frames before after bsens asens unk rp lvl :
  unique_top before = true ->
  py_eq before after = true ->
  compare_values loads (S frames) before after bsens asens unk rp lvl = Ok "".
Proof.
  intros Hu Heq.
  rewrite compare_values_S.
  destruct (equal_trees_keys before after Heq) as [attributes Hs].
  rewrite Hs. cbn [bind]. apply for_each_all_empty. intros a Ha.
  unfold compare_attribute.
  rewrite (equal_attribute_values before after unk a Hu Heq); [reflexivity|].
  apply (proj1 (sorted_set_spec _) _ Hs). exact Ha.
Qed.

(** X4: two trees that Python's [==] holds equal, the first without a
    repeated top-level key, have the empty diff, whatever the sensitivity,
    unknown and replacement maps; so has a tree without repeated keys
    against itself. *)
Theorem equal_trees_empty_diff :
  forall loads frames before after bsens asens unk rp lvl,
    (unique_top before = true ->
     py_eq before after = true ->
     compare_values loads (S frames) before after bsens asens unk rp lvl = Ok "")
    /\ (well_formed before = true ->
        compare_values loads (S frames) before before bsens asens unk rp lvl
        = Ok "").
Proof.
  intros loads frames before after bsens asens unk rp lvl.
  split; [apply equal_trees_empty|].
  intros Hwf. apply equal_trees_empty; [|apply py_eq_refl; exact Hwf].
  destruct before; try reflexivity. simpl in Hwf |- *.
  apply andb_prop in Hwf as [Hu _]. exact Hu.
Qed.

Lemma equal_trees_empty_diff_witness :
  compare_values Json.loads 1
    (VDict [("a", VBool true); ("b", VList [VInt 0; VStr "x"])])
    (VDict [("b", VList [VBool false; VStr "x"]); ("a", VInt 1)])
    [] [] [] VNone 1
  = Ok "".
Proof.
  apply (proj1 (equal_trees_empty_diff Json.loads 0
                  (VDict [("a", VBool true); ("b", VList [VInt 0; VStr "x"])])
                  (VDict [("b", VList [VBool false; VStr "x"]); ("a", VInt 1)])
                  [] [] [] VNone 1));
    reflexivity.
Defined.

(** ** The shape of the diff body *)

Lemma prefix_refl (p : string) : prefix p p = true.
Proof.
  induction p as [|c p IH]; simpl; [reflexivity|].
  destruct (ascii_dec c c); [exact IH|contradiction].
Qed.

Lemma prefix_app (p a b : string) :
  prefix p a = true -> prefix p (a ++ b) = true.
Proof.
  revert a. induction p as [|c p IH]; intros a H;
    [destruct (a ++ b); reflexivity|].
  destruct a as [|c' a]; simpl in *; [discriminate|].
  destruct (ascii_dec c c'); [apply IH; exact H|discriminate].
Qed.

Lemma prefix_append (p x : string) : prefix p (p ++ x) = true.
Proof. apply prefix_app, prefix_refl. Qed.

Lemma ends_with_refl (s : string) : ends_with s s = true.
Proof.
  destruct s as [|c s]; [reflexivity|].
  change (String.eqb (String c s) (String c s)
          || ends_with (String c s) s = true).
  rewrite String.eqb_refl. reflexivity.
Qed.

Lemma ends_with_app (suffix a b : string) :
  ends_with suffix b = true -> ends_with suffix (a ++ b) = true.
Proof.
  intros H. induction a as [|c a IH]; simpl; [exact H|].
  rewrite IH. apply orb_true_r.
Qed.

Lemma ends_with_annotation (forces : bool) : ends_with nl (annotation forces) = true.
Proof. destruct forces; reflexivity. Qed.

Lemma block_at_app (lvl : nat) (s t : string) :
  block_at lvl s -> t = "" \/ block_at lvl t -> block_at lvl (s ++ t).
Proof.
  intros (Hne & Hp & He) [->|(Hne' & Hp' & He')].
  - rewrite append_nil_r. repeat split; assumption.
  - repeat split.
    + destruct s; [contradiction|discriminate].
    + apply prefix_app. exact Hp.
    + apply ends_with_app. exact He'.
Qed.

Lemma block_at_intro (lvl : nat) (body : string) :
  ends_with nl body = true -> block_at lvl (indent lvl ++ body).
Proof.
  intros He. repeat split.
  - destruct body; [discriminate He|]. destruct (indent lvl); discriminate.
  - apply prefix_append.
  - apply ends_with_app. exact He.
Qed.

Lemma compare_attribute_equal loads recurse before after bsens asens unk rp lvl
    attribute :
  differs before after unk attribute = false ->
  compare_attribute loads recurse before after bsens asens unk rp lvl attribute
  = Ok "".
Proof.
  unfold differs. intros H. apply negb_false_iff in H.
  unfold compare_attribute. rewrite H. reflexivity.
Qed.

(** The piece of an attribute whose values differ is such a block. *)
Lemma compare_attribute_block loads recurse before after bsens asens unk rp lvl
    attribute piece :
  differs before after unk attribute = true ->
  compare_attribute loads recurse before after bsens asens unk rp lvl attribute
  = Ok piece ->
  block_at lvl piece.
Proof.
  intros Hdiff. unfold differs in Hdiff. apply negb_true_iff in Hdiff.
  unfold compare_attribute. rewrite Hdiff. cbv zeta.
  destruct (forces_replacement rp lvl attribute) as [forces|e]; [|discriminate].
  cbn [bind].
  set (bv := try_json_loads loads (before_value_of before attribute)).
  set (av := try_json_loads loads (after_value_of after unk attribute)).
  set (nested := recurse bv av bsens asens unk VNone (lvl + 1)).
  destruct (is_dict bv && (truthy bv && negb (is_none av))
            && negb (before_sensitive_bool bsens attribute)
            && negb (after_sensitive_bool asens attribute)
            && negb (after_unknown_bool unk attribute)).
  { destruct nested as [n|e]; [|discriminate]. cbn [bind]. intros [= <-].
    destruct attribute; rewrite !append_assoc; apply block_at_intro;
      repeat apply ends_with_app; reflexivity. }
  destruct (is_list bv && (truthy bv && negb (is_none av))
            && negb (before_sensitive_bool bsens attribute)
            && negb (after_sensitive_bool asens attribute)
            && negb (after_unknown_bool unk attribute)).
  { destruct nested as [n|e]; [|discriminate]. cbn [bind]. intros [= <-].
    rewrite !append_assoc. apply block_at_intro.
    repeat apply ends_with_app. reflexivity. }
  intros [= <-]. unfold leaf_line.
  destruct (is_none bv && negb (is_none av)); [destruct (is_int_key attribute)|];
    apply block_at_intro; repeat apply ends_with_app; apply ends_with_annotation.
Qed.

Lemma for_each_blocks (lvl : nat) (f : key -> result string) (l : list key)
    (keep : key -> bool) :
  (forall a, In a l -> keep a = false -> f a = Ok "") ->
  (forall a piece, In a l -> keep a = true -> f a = Ok piece -> block_at lvl piece) ->
  forall out,
    for_each f l = Ok out ->
    (out = "" <-> forall a, In a l -> keep a = false)
    /\ (out = "" \/ block_at lvl out).
Proof.
  intros Hskip Hblock. induction l as [|a l IH]; intros out Hout; simpl in Hout.
  - injection Hout as <-. split; [|left; reflexivity].
    split; [intros _ a []|reflexivity].
  - destruct (f a) as [piece|e] eqn:Hfa; [|discriminate]. cbn [bind] in Hout.
    destruct (for_each f l) as [others|e] eqn:Hl; [|discriminate].
    cbn [bind] in Hout. injection Hout as <-.
    destruct (IH (fun b Hb => Hskip b (or_intror Hb))
                 (fun b p Hb => Hblock b p (or_intror Hb)) others eq_refl)
      as [Hiff Hshape].
    destruct (keep a) eqn:Hkeep.
    + pose proof (Hblock a piece (or_introl eq_refl) Hkeep Hfa) as Hb.
      pose proof (block_at_app lvl piece others Hb Hshape) as Hall.
      split; [|right; exact Hall].
      split.
      * intros E. destruct Hall as [Hne _]. contradiction.
      * intros H. specialize (H a (or_introl eq_refl)). congruence.
    + rewrite (Hskip a (or_introl eq_refl) Hkeep) in Hfa. injection Hfa as <-.
      simpl. split; [|exact Hshape].
      rewrite Hiff. split.
      * intros H b [<-|Hb]; [exact Hkeep|apply H; exact Hb].
      * intros H b Hb. apply H. right. exact Hb.
Qed.

(** X5: the text [compare_values] returns is empty exactly when no
    attribute of either side differs; when it is not empty it starts with
    the indentation of its level and ends with a newline. *)
Theorem diff_body_shape :
  forall loads frames before after bsens asens unk rp lvl out,
    compare_values loads (S frames) before after bsens asens unk rp lvl = Ok out ->
    (out = "" <->
     forall a, In a (keys_of before ++ keys_of after) ->
               differs before after unk a = false)
    /\ (out <> "" ->
        prefix (indent lvl) out = true /\ ends_with nl out = true).
Proof.
  intros loads frames before after bsens asens unk rp lvl out Hout.
  rewrite compare_values_S in Hout.
  destruct (sorted_set (keys_of before ++ keys_of after)) as [attributes|e] eqn:Hs;
    [|discriminate]. cbn [bind] in Hout.
  pose proof (proj1 (sorted_set_spec _) _ Hs) as (_ & _ & Hin).
  destruct (for_each_blocks lvl _ attributes (differs before after unk)
              (fun a _ Hk =>
                 compare_attribute_equal loads _ before after bsens asens unk rp
                   lvl a Hk)
              (fun a piece _ Hk Hp =>
                 compare_attribute_block loads _ before after bsens asens unk rp
                   lvl a piece Hk Hp)
              out Hout) as [Hiff Hshape].
  split.
  - rewrite Hiff. split; intros H a Ha; apply H; apply Hin; exact Ha.
  - intros Hne. destruct Hshape as [E|(_ & Hp & He)]; [contradiction|].
    split; assumption.
Qed.

Lemma diff_body_shape_witness :
  prefix (indent 1) ("   ~ a = 1 -> 2" ++ nl) = true
  /\ ends_with nl ("   ~ a = 1 -> 2" ++ nl) = true.
Proof.
  apply (diff_body_shape Json.loads 0 (VDict [("a", VInt 1)]) (VDict [("a", VInt 2)])
           [] [] [] VNone 1 ("   ~ a = 1 -> 2" ++ nl) eq_refl).
  discriminate.
Defined.

(** ** One-sided changes *)

Lemma try_json_loads_none loads (v : value) :
  is_none (try_json_loads loads v) = false -> is_none v = false.
Proof. destruct v; simpl; intros H; try reflexivity; discriminate H. Qed.

Lemma compare_attribute_created loads recurse after bsens asens unk rp lvl
    attribute forces :
  is_none (parsed_after loads after unk attribute) = false ->
  forces_replacement rp lvl attribute = Ok forces ->
  compare_attribute loads recurse VNone after bsens asens unk rp lvl attribute
  = Ok (indent lvl ++ "+ "
        ++ (if is_int_key attribute then ""
            else attributed_rendered attribute ++ " = ")
        ++ after_value_rendered (after_sensitive_bool asens attribute)
             (after_unknown_bool unk attribute)
             (parsed_after loads after unk attribute) lvl
        ++ annotation forces).
Proof.
  unfold parsed_after. intros Hnone Hf.
  pose proof (try_json_loads_none loads _ Hnone) as Hraw.
  unfold compare_attribute.
  change (before_value_of VNone attribute) with VNone.
  assert (Hne : py_eq VNone (after_value_of after unk attribute) = false).
  { destruct (after_value_of after unk attribute); try reflexivity.
    discriminate Hraw. }
  rewrite Hne, Hf. cbv zeta. cbn [bind try_json_loads is_dict is_list andb].
  unfold leaf_line. rewrite symbol_cases. cbn [is_none]. rewrite Hnone.
  cbn [negb andb].
  destruct (is_int_key attribute); [reflexivity|].
  rewrite append_assoc. reflexivity.
Qed.

Lemma compare_attribute_destroyed loads recurse before bsens asens rp lvl
    attribute forces :
  is_none (parsed_before loads before attribute) = false ->
  forces_replacement rp lvl attribute = Ok forces ->
  compare_attribute loads recurse before VNone bsens asens [] rp lvl attribute
  = Ok (indent lvl ++ "- " ++ attributed_rendered attribute ++ " = "
        ++ before_value_rendered (before_sensitive_bool bsens attribute)
             (parsed_before loads before attribute) lvl
        ++ " -> "
        ++ (if after_sensitive_bool asens attribute then "(Sensitive Data)"
            else "null")
        ++ annotation forces).
Proof.
  unfold parsed_before. intros Hnone Hf.
  pose proof (try_json_loads_none loads _ Hnone) as Hraw.
  unfold compare_attribute.
  assert (Hav : after_value_of VNone [] attribute = VNone).
  { destruct attribute; reflexivity. }
  rewrite Hav, py_eq_None_r, Hraw, Hf. cbv zeta.
  cbn [bind try_json_loads is_none negb].
  rewrite !andb_false_r. cbn [andb].
  unfold leaf_line. rewrite symbol_cases. cbn [is_none]. rewrite Hnone.
  cbn [negb andb].
  assert (Hu : after_unknown_bool [] attribute = false).
  { destruct attribute; reflexivity. }
  rewrite Hu. unfold after_value_rendered.
  destruct (after_sensitive_bool asens attribute); reflexivity.
Qed.

Lemma compare_attribute_one_sided loads recurse1 recurse2 before after bsens
    asens unk rp lvl attribute :
  before = VNone \/ (after = VNone /\ unk = []) ->
  compare_attribute loads recurse1 before after bsens asens unk rp lvl attribute
  = compare_attribute loads recurse2 before after bsens asens unk rp lvl attribute.
Proof.
  intros [->|[-> ->]]; unfold compare_attribute.
  - change (before_value_of VNone attribute) with VNone. reflexivity.
  - assert (Hav : after_value_of VNone [] attribute = VNone).
    { destruct attribute; reflexivity. }
    rewrite Hav. cbn [try_json_loads is_none negb].
    rewrite !andb_false_r. reflexivity.
Qed.



(** ** The blocks of [parse_changes] *)

Lemma lstrip_preamble (text : string) : lstrip (preamble ++ text) = banner ++ text.
Proof. reflexivity. Qed.

Lemma concat_cons (x : string) (xs : list string) :
  String.concat "" (x :: xs) = x ++ String.concat "" xs.
Proof. destruct xs; simpl; [rewrite append_nil_r|]; reflexivity. Qed.

Lemma parse_changes_loop_all loads frames :
  forall rcs blocks text log,
    Forall2 (fun rc b => snd (parse_change loads frames rc) = Ok b) rcs blocks ->
    parse_changes_loop loads frames rcs text log
    = ((log ++ List.concat (map (fun rc => fst (parse_change loads frames rc)) rcs))%list,
       Ok (text ++ String.concat "" blocks)).
Proof.
  induction rcs as [|rc rcs IH]; intros blocks text log H.
  - inversion H; subst. simpl. rewrite app_nil_r, append_nil_r. reflexivity.
  - inversion H as [|? b ? rest Hrc Hrest]; subst.
    rewrite concat_cons. cbn [parse_changes_loop map List.concat].
    destruct (parse_change loads frames rc) as [events r].
    simpl in Hrc. subst r. cbn [fst].
    rewrite (IH _ _ _ Hrest), <- app_assoc, append_assoc. reflexivity.
Qed.

(** X7: [parse_changes] returns the preamble without its leading newline,
    then the blocks of the resource changes in their order, then a newline,
    and logs what each resource change logs, in order; at the first
    resource change that raises it stops with that exception and the log up
    to there. *)
Theorem parse_changes_in_order :
  forall loads frames pre blocks,
    Forall2 (fun rc b => snd (parse_change loads frames rc) = Ok b) pre blocks ->
    parse_changes loads frames pre
    = (List.concat (map (fun rc => fst (parse_change loads frames rc)) pre),
       Ok (banner ++ String.concat "" blocks ++ nl))
    /\ (forall rc post e,
          snd (parse_change loads frames rc) = Raise e ->
          parse_changes loads frames (pre ++ rc :: post)
          = ((List.concat (map (fun rc => fst (parse_change loads frames rc)) pre)
              ++ fst (parse_change loads frames rc))%list,
             Raise e)).
Proof.
  intros loads frames pre blocks Hall.
  pose proof (parse_changes_loop_all loads frames pre blocks preamble [] Hall) as Hpre.
  simpl app in Hpre. split.
  - unfold parse_changes. rewrite Hpre.
    rewrite append_assoc, lstrip_preamble. reflexivity.
  - intros rc post e Hrc. unfold parse_changes.
    rewrite parse_changes_loop_app, Hpre. simpl.
    destruct (parse_change loads frames rc) as [events r]. simpl in Hrc. subst r.
    reflexivity.
Qed.

Lemma parse_changes_in_order_witness :
  parse_changes Json.loads 1
    [web ["no-op"] VNone VNone None None;
     web ["read"] VNone VNone None None]
  = ([LogDebug "Data resource found [aws_instance.web]"],
     Ok (banner ++ nl)).
Proof.
  apply (proj1 (parse_changes_in_order Json.loads 1
                  [web ["no-op"] VNone VNone None None;
                   web ["read"] VNone VNone None None]
                  [""; ""]
                  ltac:(repeat constructor))).
Defined.

(** ** The decorator of [main] *)

Lemma raises_only_weaken {A : Type} (P Q : exn -> Prop) (r : result A) :
  (forall e, P e -> Q e) -> raises_only P r -> raises_only Q r.
Proof. intros H. destruct r; simpl; auto. Qed.

Lemma compare_values_exceptions loads :
  forall frames before after bsens asens unk rp lvl,
    raises_only (fun e => e = TypeError \/ e = RecursionError)
      (compare_values loads frames before after bsens asens unk rp lvl).
Proof.
  induction frames as [|frames IH]; intros before after bsens asens unk rp lvl.
  - simpl. right. reflexivity.
  - rewrite compare_values_S. unfold sorted_set.
    destruct (existsb is_int_key _ && existsb is_str_key _);
      [simpl; left; reflexivity|].
    cbn [bind]. apply for_each_raises. intros a _.
    unfold compare_attribute.
    destruct (py_eq _ _); [exact I|].
    pose proof (forces_replacement_raises rp lvl a) as Hf.
    destruct (forces_replacement rp lvl a) as [forces|e]; simpl;
      [|left; exact Hf].
    match goal with
    | |- context [compare_values loads frames ?b ?c bsens asens unk VNone ?l] =>
        pose proof (IH b c bsens asens unk VNone l) as Hrec;
        destruct (compare_values loads frames b c bsens asens unk VNone l)
    end;
      repeat match goal with
             | |- context [if ?c then _ else _] => destruct c
             end; simpl; auto.
Qed.

Lemma parse_change_exceptions loads frames rc :
  raises_only (fun e => e = TypeError \/ e = RecursionError \/ e = SystemExit 1)
    (snd (parse_change loads frames rc)).
Proof.
  unfold parse_change.
  repeat match goal with
         | |- context [if ?c then _ else _] => destruct c
         end; simpl; auto;
    match goal with
    | |- context [compare_values loads frames ?b ?c ?x ?y ?z ?r ?l] =>
        pose proof (compare_values_exceptions loads frames b c x y z r l) as H;
        destruct (compare_values loads frames b c x y z r l); simpl in *;
        [exact I|destruct H; auto]
    end.
Qed.

Lemma parse_changes_loop_exceptions loads frames :
  forall rcs text log,
    raises_only (fun e => e = TypeError \/ e = RecursionError \/ e = SystemExit 1)
      (snd (parse_changes_loop loads frames rcs text log)).
Proof.
  induction rcs as [|rc rcs IH]; intros text log; simpl; [exact I|].
  pose proof (parse_change_exceptions loads frames rc) as H.
  destruct (parse_change loads frames rc) as [events [block|e]]; simpl in *;
    [apply IH|exact H].
Qed.

(** X8: under [exception_handler], [parse_changes] ends normally exactly
    when it returned a text; otherwise the outcome is [sys.exit(1)], also for
    a TypeError or a RecursionError; the exit status is 0 or 1 accordingly
    and the log of [parse_changes] is kept in front of what the handler
    writes. *)
Theorem handled_parse_changes :
  forall describe loads frames rcs,
    (snd (exception_handler describe (parse_changes loads frames rcs)) = Ok tt
     <-> exists text, snd (parse_changes loads frames rcs) = Ok text)
    /\ (snd (exception_handler describe (parse_changes loads frames rcs)) = Ok tt
        \/ snd (exception_handler describe (parse_changes loads frames rcs))
           = Raise (SystemExit 1))
    /\ (exit_status (snd (exception_handler describe (parse_changes loads frames rcs)))
        = if exit_status (snd (parse_changes loads frames rcs)) =? 0 then 0 else 1)%Z
    /\ (exists written,
          fst (exception_handler describe (parse_changes loads frames rcs))
          = (fst (parse_changes loads frames rcs) ++ written)%list).
Proof.
  intros describe loads frames rcs. unfold parse_changes.
  pose proof (parse_changes_loop_exceptions loads frames rcs preamble []) as H.
  destruct (parse_changes_loop loads frames rcs preamble []) as [log [text|e]];
    simpl in *.
  - repeat split; auto.
    + intros _. eexists. reflexivity.
    + exists []. rewrite app_nil_r. reflexivity.
  - destruct H as [->|[->| ->]]; simpl;
      (split; [split; [discriminate|intros [t Ht]; discriminate Ht]|]);
      (split; [right; reflexivity|]); (split; [reflexivity|]);
      first [exists (describe TypeError); reflexivity
            |exists (describe RecursionError); reflexivity
            |exists []; rewrite app_nil_r; reflexivity].
Qed.

(** ** Large strings at any depth *)

Lemma concat_map_ext {A : Type} (f g : A -> string) (l : list A) :
  Forall (fun x => f x = g x) l ->
  String.concat "" (map f l) = String.concat "" (map g l).
Proof.
  induction 1 as [|x l Hx Hl IH]; [reflexivity|].
  cbn [map]. rewrite !concat_cons, Hx, IH. reflexivity.
Qed.

(** X9: the rendering of a value does not depend on the content of any
    string of more than 1000 characters in it, at any depth of lists and
    dictionaries: replacing each by another string of more than 1000
    characters gives the same text. *)
Theorem large_strings_hidden_at_any_depth :
  forall other,
    (forall s, 1000 < String.length s -> 1000 < String.length (other s)) ->
    forall v start_with_indention indention_level,
      render_value (replace_large other v) start_with_indention indention_level
      = render_value v start_with_indention indention_level.
Proof.
  intros other Hother.
  induction v as [| b | z | s | l IH | d IH] using value_induction;
    intros swi lvl; try reflexivity.
  - simpl. destruct (Nat.ltb_spec 1000 (String.length s)) as [Hlong|Hshort];
      [|reflexivity].
    simpl. unfold render_string.
    destruct (Nat.ltb_spec 1000 (String.length (other s))) as [_|Hs];
      [|specialize (Hother s Hlong); lia].
    destruct (Nat.ltb_spec 1000 (String.length s)) as [_|Hs]; [reflexivity|lia].
  - destruct l as [|x l]; [reflexivity|].
    change (replace_large other (VList (x :: l)))
      with (VList (replace_large other x :: map (replace_large other) l)).
    cbn [render_value].
    change (replace_large other x :: map (replace_large other) l)
      with (map (replace_large other) (x :: l)).
    rewrite map_map.
    rewrite (concat_map_ext _
               (fun x => indent (lvl + 1) ++ render_value x false (lvl + 1) ++ nl));
      [reflexivity|].
    rewrite Forall_forall in IH |- *.
    intros y Hy. rewrite (IH y Hy). reflexivity.
  - destruct d as [|kv d]; [reflexivity|].
    change (replace_large other (VDict (kv :: d)))
      with (VDict ((fst kv, replace_large other (snd kv))
                   :: map (fun kv => (fst kv, replace_large other (snd kv))) d)).
    cbn [render_value].
    change ((fst kv, replace_large other (snd kv))
            :: map (fun kv => (fst kv, replace_large other (snd kv))) d)
      with (map (fun kv => (fst kv, replace_large other (snd kv))) (kv :: d)).
    rewrite map_map.
    rewrite (concat_map_ext _
               (fun kv => indent (lvl + 1) ++ quote_key (fst kv) ++ " = "
                          ++ render_value (snd kv) false (lvl + 1) ++ nl));
      [reflexivity|].
    rewrite Forall_forall in IH |- *.
    intros y Hy. cbn [fst snd]. rewrite (IH y Hy). reflexivity.
Qed.

Lemma large_strings_hidden_at_any_depth_witness :
  render_value
    (VDict [("user_data", VList [VStr (repeat_char "a" 1001)])]) false 1
  = render_value
      (VDict [("user_data", VList [VStr (repeat_char "b" 2000)])]) false 1.
Proof.
  apply (large_strings_hidden_at_any_depth (fun _ => repeat_char "a" 1001)
           ltac:(intros s _; cbv beta; rewrite length_repeat_char; lia)
           (VDict [("user_data", VList [VStr (repeat_char "b" 2000)])]) false 1).
Defined.

(** ** The count of the actions in the execution log *)

Lemma member_item_raises (k : string) (x : value) :
  raises_only (fun e => e = TypeError) (member_item k x).
Proof.
  destruct x; simpl; auto;
    match goal with |- context [if ?c then _ else _] => destruct c end;
    simpl; auto.
Qed.

Lemma tally_add_assoc (a b c : tally) :
  tally_add (tally_add a b) c = tally_add a (tally_add b c).
Proof. unfold tally_add. simpl. f_equal; lia. Qed.

Lemma tally_add_comm (a b : tally) : tally_add a b = tally_add b a.
Proof. unfold tally_add. f_equal; lia. Qed.

Lemma tally_add_0_r (a : tally) : tally_add a no_tally = a.
Proof. destruct a. unfold tally_add. simpl. f_equal; lia. Qed.

Lemma bump_add (action : value) (t : tally) :
  bump action t = tally_add t (bump action no_tally).
Proof. reflexivity. Qed.

(** A line adds a fixed amount to the tally, or it raises TypeError. *)
Lemma count_line_shift loads applicable (t : tally) (line : string) :
  count_line loads applicable t line
  = match count_line loads applicable no_tally line with
    | Ok d => Ok (tally_add t d)
    | Raise e => Raise TypeError
    end.
Proof.
  unfold count_line.
  destruct (loads line) as [data|]; [|rewrite tally_add_0_r; reflexivity].
  pose proof (member_item_raises "type" data) as H1.
  destruct (member_item "type" data) as [[ty|]|e]; simpl in *;
    [|rewrite tally_add_0_r; reflexivity|congruence].
  destruct (negb (py_eq ty (VStr applicable)));
    [rewrite tally_add_0_r; reflexivity|].
  pose proof (member_item_raises "hook" data) as H2.
  destruct (member_item "hook" data) as [[hook|]|e]; simpl in *;
    [|rewrite tally_add_0_r; reflexivity|congruence].
  pose proof (member_item_raises "action" hook) as H3.
  destruct (member_item "action" hook) as [[action|]|e]; simpl in *;
    [|rewrite tally_add_0_r; reflexivity|congruence].
  rewrite bump_add. reflexivity.
Qed.

Lemma bump_total (action : value) : tally_total (bump action no_tally) <= 1.
Proof.
  unfold tally_total, bump. simpl.
  destruct action; simpl; try lia.
  destruct (String.eqb_spec s "import") as [->|]; simpl; [lia|].
  destruct (String.eqb_spec s "create") as [->|]; simpl; [lia|].
  destruct (String.eqb_spec s "update") as [->|]; simpl; [lia|].
  destruct (String.eqb s "delete"); simpl; lia.
Qed.

Lemma count_line_total loads applicable (line : string) (d : tally) :
  count_line loads applicable no_tally line = Ok d -> tally_total d <= 1.
Proof.
  unfold count_line.
  destruct (loads line) as [data|]; [|intros [= <-]; unfold tally_total; simpl; lia].
  destruct (member_item "type" data) as [[ty|]|e]; simpl;
    try discriminate; [|intros [= <-]; unfold tally_total; simpl; lia].
  destruct (negb (py_eq ty (VStr applicable)));
    [intros [= <-]; unfold tally_total; simpl; lia|].
  destruct (member_item "hook" data) as [[hook|]|e]; simpl;
    try discriminate; [|intros [= <-]; unfold tally_total; simpl; lia].
  destruct (member_item "action" hook) as [[action|]|e]; simpl;
    try discriminate; [|intros [= <-]; unfold tally_total; simpl; lia].
  intros [= <-]. apply bump_total.
Qed.

Lemma count_lines_shift loads applicable :
  forall lines t,
    count_lines loads applicable t lines
    = match count_lines loads applicable no_tally lines with
      | Ok d => Ok (tally_add t d)
      | Raise e => Raise TypeError
      end.
Proof.
  induction lines as [|line lines IH]; intros t; simpl.
  - rewrite tally_add_0_r. reflexivity.
  - rewrite count_line_shift.
    destruct (count_line loads applicable no_tally line) as [d|e]; simpl;
      [|reflexivity].
    rewrite (IH (tally_add t d)), (IH d).
    destruct (count_lines loads applicable no_tally lines) as [d'|e]; simpl;
      [|reflexivity].
    rewrite tally_add_assoc. reflexivity.
Qed.

Lemma count_lines_app loads applicable (l1 l2 : list string) (t : tally) :
  count_lines loads applicable t (l1 ++ l2)
  = (t' <- count_lines loads applicable t l1 ;; count_lines loads applicable t' l2).
Proof.
  revert t. induction l1 as [|x l1 IH]; intros t; simpl; [reflexivity|].
  destruct (count_line loads applicable t x) as [t'|e]; simpl; [apply IH|reflexivity].
Qed.

Lemma count_lines_cons loads applicable (line : string) (lines : list string) :
  count_lines loads applicable no_tally (line :: lines)
  = match count_line loads applicable no_tally line,
          count_lines loads applicable no_tally lines with
    | Ok d, Ok d' => Ok (tally_add d d')
    | _, _ => Raise TypeError
    end.
Proof.
  simpl. rewrite count_line_shift.
  destruct (count_line loads applicable no_tally line) as [d|e]; simpl;
    [|reflexivity].
  replace (tally_add no_tally d) with d by (destruct d; reflexivity).
  rewrite count_lines_shift.
  destruct (count_lines loads applicable no_tally lines); reflexivity.
Qed.

Lemma count_lines_permutation loads applicable (l l' : list string) :
  Permutation l l' ->
  count_lines loads applicable no_tally l = count_lines loads applicable no_tally l'.
Proof.
  induction 1 as [|x l l' _ IH|x y l|l l' l'' _ IH1 _ IH2].
  - reflexivity.
  - rewrite !count_lines_cons, IH. reflexivity.
  - rewrite !count_lines_cons.
    destruct (count_line loads applicable no_tally x) as [dx|ex],
      (count_line loads applicable no_tally y) as [dy|ey],
      (count_lines loads applicable no_tally l) as [d|e]; try reflexivity.
    rewrite <- !tally_add_assoc, (tally_add_comm dy dx). reflexivity.
  - congruence.
Qed.

Lemma count_lines_total loads applicable :
  forall lines t,
    count_lines loads applicable no_tally lines = Ok t ->
    tally_total t <= List.length lines.
Proof.
  induction lines as [|line lines IH]; intros t.
  - intros [= <-]. unfold tally_total. simpl. lia.
  - rewrite count_lines_cons.
    destruct (count_line loads applicable no_tally line) as [d|e] eqn:Hd;
      [|discriminate].
    destruct (count_lines loads applicable no_tally lines) as [d'|e];
      [|discriminate].
    intros [= <-]. pose proof (count_line_total _ _ _ _ Hd).
    specialize (IH d' eq_refl). unfold tally_total, tally_add in *. simpl in *. lia.
Qed.

Lemma count_lines_raises loads applicable (lines : list string) :
  raises_only (fun e => e = TypeError)
    (count_lines loads applicable no_tally lines).
Proof.
  induction lines as [|line lines IH]; [exact I|].
  rewrite count_lines_cons.
  destruct (count_line loads applicable no_tally line),
    (count_lines loads applicable no_tally lines); simpl; auto.
Qed.




(** ** Logging and step outputs *)

Lemma split_on_cons (sep : ascii) (s : string) :
  exists x xs, split_on sep s = x :: xs.
Proof.
  induction s as [|c s [x [xs IH]]]; simpl; [eauto|].
  destruct (Ascii.eqb c sep); [eauto|]. rewrite IH. eauto.
Qed.

Lemma split_on_line (a rest : string) :
  existsb_char (fun c => Ascii.eqb c "010") a = false ->
  split_on "010" (a ++ nl ++ rest) = a :: split_on "010" rest.
Proof.
  induction a as [|c a IH]; intros H; [reflexivity|].
  simpl in H. apply orb_false_iff in H as [Hc Ha].
  change (String c a ++ nl ++ rest) with (String c (a ++ nl ++ rest)).
  cbn [split_on]. rewrite Hc, (IH Ha). reflexivity.
Qed.

Lemma has_break_newline (s : string) :
  has_break s = false -> existsb_char (fun c => Ascii.eqb c "010") s = false.
Proof.
  unfold has_break. induction s as [|c s IH]; simpl; [reflexivity|].
  intros H. apply orb_false_iff in H as [Hc Hs]. rewrite (IH Hs), orb_false_r.
  destruct (Ascii.eqb_spec c "010") as [->|]; [discriminate Hc|reflexivity].
Qed.

Lemma existsb_char_app (p : ascii -> bool) (a b : string) :
  existsb_char p (a ++ b) = existsb_char p a || existsb_char p b.
Proof.
  induction a as [|c a IH]; simpl; [reflexivity|].
  rewrite IH, orb_assoc. reflexivity.
Qed.

Lemma splitlines_from_no_break (s : string) :
  has_break s = false ->
  forall after_cr,
    splitlines_from after_cr s = match s with EmptyString => [] | _ => [s] end.
Proof.
  unfold has_break. induction s as [|c s IH]; intros H after_cr; [reflexivity|].
  simpl in H. apply orb_false_iff in H as [Hc Hs].
  cbn [splitlines_from].
  assert (Ascii.eqb c "010" = false) as Hlf.
  { destruct (Ascii.eqb_spec c "010") as [->|]; [discriminate Hc|reflexivity]. }
  rewrite Hlf, andb_false_r, Hc, (IH Hs false).
  destruct s; reflexivity.
Qed.

Lemma splitlines_from_pieces (s : string) :
  forall after_cr,
    Forall (fun line => has_break line = false) (splitlines_from after_cr s).
Proof.
  induction s as [|c s IH]; intros after_cr; cbn [splitlines_from];
    [constructor|].
  destruct (after_cr && Ascii.eqb c "010"); [apply IH|].
  destruct (is_break c) eqn:Hc; [constructor; [reflexivity|apply IH]|].
  specialize (IH false).
  destruct (splitlines_from false s) as [|x xs].
  - constructor; [|constructor]. unfold has_break. simpl. rewrite Hc. reflexivity.
  - inversion IH; subst. constructor; [|assumption].
    unfold has_break in *. simpl. rewrite Hc. assumption.
Qed.

Lemma splitlines_from_nonempty (s : string) :
  s <> "" -> splitlines_from false s <> [].
Proof.
  destruct s as [|c s]; [congruence|]. intros _. cbn [splitlines_from andb].
  destruct (is_break c); [discriminate|].
  destruct (splitlines_from false s); discriminate.
Qed.

Lemma splitlines_from_two (b : string) :
  b <> "" ->
  forall a after_cr,
    (if after_cr : bool then 1 else 2)%nat
    <= List.length (splitlines_from after_cr (a ++ nl ++ b))
    /\ (a <> "" -> 2 <= List.length (splitlines_from after_cr (a ++ nl ++ b))).
Proof.
  intros Hb.
  assert (1 <= List.length (splitlines_from false b)) as Hb1.
  { pose proof (splitlines_from_nonempty b Hb).
    destruct (splitlines_from false b); simpl; [congruence|lia]. }
  induction a as [|c a IH]; intros after_cr.
  - split; [|congruence]. simpl. destruct after_cr; simpl; lia.
  - assert (2 <= List.length (splitlines_from after_cr (String c a ++ nl ++ b))) as H.
    { change (String c a ++ nl ++ b) with (String c (a ++ nl ++ b)).
      cbn [splitlines_from].
      destruct (after_cr && Ascii.eqb c "010"); [exact (proj1 (IH false))|].
      destruct (is_break c).
      - destruct (IH (Ascii.eqb c "013")) as [IH1 _]. cbn [List.length].
        destruct (Ascii.eqb c "013"); lia.
      - destruct (IH false) as [IH1 _].
        destruct (splitlines_from false (a ++ nl ++ b));
          cbn [List.length] in *; lia. }
    split; [destruct after_cr; lia|intros _; exact H].
Qed.

Lemma concat_lines (level : string) (lines : list string) :
  has_break level = false ->
  Forall (fun line => has_break line = false) lines ->
  split_on "010" (String.concat "" (map (fun line => level ++ line ++ nl) lines))
  = (map (append level) lines ++ [EmptyString])%list.
Proof.
  intros Hl. induction 1 as [|x l Hx _ IH]; [reflexivity|].
  cbn [map]. rewrite concat_cons, append_assoc, append_assoc.
  rewrite <- (append_assoc level x).
  rewrite split_on_line, IH; [reflexivity|].
  rewrite existsb_char_app, (has_break_newline _ Hl), (has_break_newline _ Hx).
  reflexivity.
Qed.

(** X12: for [info], [debug], [warning] and [error]: the lines of the
    written text, split at the newline, are the lines of the message each
    with the prefix of the function in front, followed by one empty piece;
    no line holds a line boundary; the empty message writes nothing, and a
    message without line boundary is written as one line. *)
Theorem logged_lines_prefixed :
  forall write level,
    In (write, level)
       [(info, ""); (debug, "::debug::"); (warning, "::warning::");
        (error, "::error::")] ->
    forall msg,
      split_on "010" (write msg)
      = (map (append level) (splitlines msg) ++ [EmptyString])%list
      /\ Forall (fun line => has_break line = false) (splitlines msg)
      /\ (msg = "" -> write msg = "")
      /\ (msg <> "" -> has_break msg = false -> write msg = level ++ msg ++ nl).
Proof.
  intros write level Hin msg.
  assert (write = write_lines level /\ has_break level = false) as [-> Hl].
  { simpl in Hin.
    destruct Hin as [[= <- <-]|[[= <- <-]|[[= <- <-]|[[= <- <-]|[]]]]];
      split; reflexivity. }
  pose proof (splitlines_from_pieces msg false) as Hp.
  split; [apply concat_lines; assumption|].
  split; [exact Hp|]. split.
  - intros ->. reflexivity.
  - intros Hne Hb. unfold write_lines, splitlines.
    rewrite (splitlines_from_no_break msg Hb).
    destruct msg; [congruence|]. reflexivity.
Qed.

Lemma logged_lines_prefixed_witness :
  split_on "010" (error ("boom" ++ nl ++ "bang"))
  = ["::error::boom"; "::error::bang"; ""].
Proof.
  destruct (logged_lines_prefixed error "::error::"
              (or_intror (or_intror (or_intror (or_introl eq_refl))))
              ("boom" ++ nl ++ "bang")) as [H _].
  exact H.
Defined.

(** X13: [set_output] writes nothing when GITHUB_OUTPUT names no file;
    otherwise it appends a text that ends with a newline: [name=value] and
    a newline for a value without line boundary, [name=value] and two
    newlines for such a value followed by one newline, and the delimited
    form, with a newline added after the value when it has none, for a
    value with a newline in front of more text. *)
Theorem set_output_shape :
  forall github_output delimiter name value,
    (github_output = None -> set_output github_output delimiter name value = None)
    /\ (forall content, github_output = Some content ->
          exists text,
            set_output github_output delimiter name value = Some (content ++ text)
            /\ ends_with nl text = true
            /\ (has_break value = false -> text = name ++ "=" ++ value ++ nl)
            /\ (forall a, has_break a = false -> value = a ++ nl ->
                  text = name ++ "=" ++ a ++ nl ++ nl)
            /\ (forall a b, b <> "" -> value = a ++ nl ++ b ->
                  text = name ++ "<<" ++ delimiter ++ nl ++ value
                         ++ (if ends_with nl value then "" else nl)
                         ++ delimiter ++ nl)).
Proof.
  intros github_output delimiter name value.
  split; [intros ->; reflexivity|].
  intros content ->. exists (set_output_text delimiter name value).
  split; [reflexivity|]. unfold set_output_text, splitlines.
  split; [|split; [|split]].
  - destruct (1 <? _)%nat;
      repeat first [apply ends_with_refl | apply ends_with_app].
  - intros Hb. rewrite (splitlines_from_no_break value Hb).
    destruct value; reflexivity.
  - intros a Ha ->.
    assert (splitlines_from false (a ++ nl) = [a]) as ->;
      [|cbn [List.length Nat.ltb Nat.leb]; rewrite append_assoc; reflexivity].
    clear - Ha. unfold has_break in Ha.
    destruct a as [|c a]; [reflexivity|].
    assert (forall s, existsb_char is_break s = false ->
              splitlines_from false (s ++ nl)
              = match s with EmptyString => [EmptyString] | _ => [s] end) as H.
    { clear. induction s as [|c s IH]; intros H; [reflexivity|].
      simpl in H. apply orb_false_iff in H as [Hc Hs].
      change (String c s ++ nl) with (String c (s ++ nl)).
      cbn [splitlines_from andb]. rewrite Hc, (IH Hs). destruct s; reflexivity. }
    apply (H (String c a) Ha).
  - intros a b Hb ->.
    destruct (splitlines_from_two b Hb a false) as [H _].
    destruct (Nat.ltb_spec 1 (List.length (splitlines_from false (a ++ nl ++ b))));
      [reflexivity|lia].
Qed.

(** X14: after the block that resolves the four counts none of them is
    [None]; they are the counts of the run, or, when one of those was
    [None], the tally of the log, all four replaced, at most as many
    together as the log has lines, and [changes] is true exactly when the
    tally is not zero. *)
Theorem counts_resolved :
  forall loads execution_target api log_text i a c d,
    resolve_counts loads execution_target api log_text = Ok (i, a, c, d) ->
    (is_none i = false /\ is_none a = false /\ is_none c = false
     /\ is_none d = false)
    /\ ((i, a, c, d) = api
        \/ exists t,
             count_lines loads (applicable_action execution_target) no_tally
               (split_on "010" log_text) = Ok t
             /\ (i, a, c, d)
                = (VInt (Z.of_nat (to_import t)), VInt (Z.of_nat (to_add t)),
                   VInt (Z.of_nat (to_change t)), VInt (Z.of_nat (to_destroy t)))
             /\ tally_total t <= List.length (split_on "010" log_text)
             /\ changes (i, a, c, d) = negb (tally_total t =? 0)%nat).
Proof.
  intros loads execution_target [[[i0 a0] c0] d0] log_text i a c d.
  unfold resolve_counts.
  destruct (is_none i0 || is_none a0 || is_none c0 || is_none d0) eqn:Hnone.
  - destruct (count_lines loads (applicable_action execution_target) no_tally
                (split_on "010" log_text)) as [t|e] eqn:Ht; [|discriminate].
    simpl. intros [= <- <- <- <-]. split; [repeat split|].
    right. exists t. split; [reflexivity|]. split; [reflexivity|].
    split; [apply (count_lines_total _ _ _ _ Ht)|].
    unfold changes, tally_total. simpl.
    destruct t as [ti ta tc td]. simpl.
    destruct ti, ta, tc, td; reflexivity.
  - intros [= <- <- <- <-].
    apply orb_false_iff in Hnone as [Hnone Hd].
    apply orb_false_iff in Hnone as [Hnone Hc].
    apply orb_false_iff in Hnone as [Hi Ha].
    split; [repeat split; assumption|left; reflexivity].
Qed.

Lemma counts_resolved_witness :
  exists t,
    count_lines Json.loads "planned_change" no_tally
      (split_on "010" ("Terraform v1.5.7" ++ nl ++ "{}")) = Ok t
    /\ tally_total t <= 2.
Proof.
  destruct (counts_resolved Json.loads "plan" (VNone, VInt 1, VInt 0, VInt 0)
              ("Terraform v1.5.7" ++ nl ++ "{}")
              (VInt 0) (VInt 0) (VInt 0) (VInt 0) eq_refl)
    as [_ [H|[t [H1 [_ [H2 _]]]]]]; [discriminate H|].
  exists t. split; [exact H1|exact H2].
Defined.
